(** * eva: the voice-activity driver loop of [src/main.cpp]

    A shallow embedding of the frame loop of [main] (the hysteresis counters
    [hot] and [hold], the segment flags and the calls made on the
    transcriber), of the transcriber wrapper of [src/transcriber.cpp], and of
    what one [AudioCapture::read] can hand back to the loop.

    Levels are IEEE binary32 values, written as [spec_float]; the comparison
    [level > trigger_dbfs] is [SFltb].  The loop is stated for any level
    meter and any engine text (section variables); the meter of
    [src/utils.cpp], [rms] and [dbfs], is embedded further down over the
    binary64 and binary32 operations of [SpecFloat], with [std::log10] as
    its one parameter.

    Further on: [extract_text_field] of [src/transcriber.cpp] over
    [String.index] and [substring]; and of [src/audio_capture.cpp] the ALSA
    [start], [read] and destructor, with the library's answers as inputs,
    and the queue between the CoreAudio callback and [read]. *)

From Stdlib Require Import ZArith List Bool Ascii String Lia.
From Stdlib Require Import Floats.SpecFloat.
Import ListNotations.

Local Open Scope Z_scope.

(** ** Machine integers *)

(** [hot] and [hold] are C++ [int]s.  [hot++] and [hold--] are written with
    the wrap-around of a 32-bit two's complement register; the counters
    never come near it (see the bounds proved below). *)
Definition int_wrap (z : Z) : Z := (z + 2 ^ 31) mod 2 ^ 32 - 2 ^ 31.

(** ** Constants of [main] (main.cpp lines 56-58) *)

(** [-35.0f]: sign, 24-bit mantissa and exponent of the binary32 value. *)
Definition trigger_dbfs : spec_float := S754_finite true 9175040 (-18).
Definition trigger_frames : Z := 10.
Definition release_frames : Z := 20.

(** A frame is the content of [buffer] after a read: signed 16-bit samples. *)
Definition frame := list Z.

(** ** The transcriber (transcriber.cpp) *)

Section Sink.

(** The text the engine's final result carries for the chunks it was fed
    since its last reset ([vosk_recognizer_final_result] followed by
    [extract_text_field]); the engine is not part of the repository. *)
Variable recognise : list frame -> string.

(** [Transcriber::Impl]: the [ready] flag and what the recognizer has
    accepted since its last reset. *)
Record Transcriber : Type := mkTranscriber {
  ready : bool;
  accepted : list frame
}.

Definition available (t : Transcriber) : bool := ready t.

(** [Impl::feed]: nothing when not ready, else the recognizer accepts the
    waveform; the status the engine returns is dropped. *)
Definition feed (t : Transcriber) (data : frame) : Transcriber :=
  if ready t then mkTranscriber (ready t) (accepted t ++ [data]) else t.

(** [Impl::flush]: the final text, and the recognizer reset. *)
Definition flush (t : Transcriber) : string * Transcriber :=
  if ready t then (recognise (accepted t), mkTranscriber (ready t) [])
  else (EmptyString, t).

(** The constructor either throws ([std::runtime_error], carrying its
    message) or yields an object whose [ready] flag is set. *)
Inductive ctor_result : Type :=
| Ctor_throws (what : string)
| Ctor_ok.

End Sink.

(** ** What the loop observes and does *)

(** One [capture.read(buffer)]: the ALSA backend throws when
    [snd_pcm_readi] fails and cannot be recovered; otherwise the call
    returns the number of samples now in [buffer].  A read that returns 0
    (capture stopped, or a spurious empty read) is [Samples []]: the loop
    tests the count and does not look at [buffer] then. *)
Inductive read_result : Type :=
| Read_throws (what : string)
| Samples (buffer : frame).

(** The calls on the transcriber and the lines written to standard output
    inside the loop, in program order. *)
Inductive event : Type :=
| SpeechDetected (level : spec_float)
| Feed (data : frame)
| Flush
| TranscriptionResult (text : string)
| NoSpeechRecognised.

(** The local variables of [main] that the loop reads and writes. *)
Record locals : Type := mkLocals {
  hot : Z;
  hold : Z;
  segment_active : bool;
  segment_has_audio : bool;
  transcription_enabled : bool;
  transcriber : option Transcriber
}.

Definition set_hot (v : Z) (s : locals) : locals :=
  mkLocals v (hold s) (segment_active s) (segment_has_audio s)
           (transcription_enabled s) (transcriber s).
Definition set_hold (v : Z) (s : locals) : locals :=
  mkLocals (hot s) v (segment_active s) (segment_has_audio s)
           (transcription_enabled s) (transcriber s).
Definition set_segment_active (v : bool) (s : locals) : locals :=
  mkLocals (hot s) (hold s) v (segment_has_audio s)
           (transcription_enabled s) (transcriber s).
Definition set_segment_has_audio (v : bool) (s : locals) : locals :=
  mkLocals (hot s) (hold s) (segment_active s) v
           (transcription_enabled s) (transcriber s).
Definition set_transcriber (v : option Transcriber) (s : locals) : locals :=
  mkLocals (hot s) (hold s) (segment_active s) (segment_has_audio s)
           (transcription_enabled s) v.

(** ** A monad for the loop body: state, output, and abrupt ends *)

(** The two ways an iteration can fail to reach its end: an exception that
    nothing in [main] catches, and a call through the null [transcriber]. *)
Inductive abort : Type :=
| Uncaught (what : string)
| Null_dereference.

Inductive outcome (A : Type) : Type :=
| Done (a : A)
| Stop (e : abort).
Arguments Done {A} a.
Arguments Stop {A} e.

Definition M (A : Type) : Type := locals -> outcome A * locals * list event.

Definition ret {A} (a : A) : M A := fun s => (Done a, s, []).

Definition bind {A B} (m : M A) (k : A -> M B) : M B :=
  fun s =>
    match m s with
    | (Done a, s1, out1) =>
        match k a s1 with
        | (r, s2, out2) => (r, s2, out1 ++ out2)
        end
    | (Stop e, s1, out1) => (Stop e, s1, out1)
    end.

Definition get : M locals := fun s => (Done s, s, []).
Definition modify (f : locals -> locals) : M unit := fun s => (Done tt, f s, []).
Definition emit (e : event) : M unit := fun s => (Done tt, s, [e]).
Definition throw {A} (e : abort) : M A := fun s => (Stop e, s, []).
Definition when (b : bool) (m : M unit) : M unit := if b then m else ret tt.

Declare Scope loop_scope.
Delimit Scope loop_scope with loop.
Notation "x <- m ;; k" := (bind m (fun x => k))
  (at level 61, m at next level, right associativity) : loop_scope.
Notation "m ;; k" := (bind m (fun _ => k))
  (at level 61, right associativity) : loop_scope.

(** [transcriber->...]: the pointer must not be null. *)
Definition deref_transcriber : M Transcriber :=
  fun s => match transcriber s with
           | Some t => (Done t, s, [])
           | None => (Stop Null_dereference, s, [])
           end.

Section Driver.

Variable dbfs : frame -> spec_float.
Variable recognise : list frame -> string.

Local Open Scope loop_scope.

(** main.cpp lines 39-52: construct the transcriber, or go on without. *)
Definition setup_transcription (c : ctor_result) : option Transcriber * bool :=
  match c with
  | Ctor_ok => let t := mkTranscriber true [] in (Some t, available t)
  | Ctor_throws _ => (None, false)
  end.

(** main.cpp lines 60-63, with the outcome of lines 39-52. *)
Definition initial (c : ctor_result) : locals :=
  let '(t, enabled) := setup_transcription c in
  mkLocals 0 0 false false enabled t.

(** main.cpp lines 72-81. *)
Definition update_hot (speech_like : bool) (level : spec_float) : M unit :=
  if speech_like then
    modify (fun s => set_hot (int_wrap (hot s + 1)) s) ;;
    s <- get ;;
    when (trigger_frames <=? hot s)
      (modify (set_hold release_frames) ;;
       modify (set_hot 0) ;;
       emit (SpeechDetected level))
  else
    modify (set_hot 0).

(** main.cpp lines 83-85. *)
Definition update_hold : M unit :=
  s <- get ;;
  when (0 <? hold s) (modify (set_hold (int_wrap (hold s - 1)))).

(** main.cpp lines 87-91. *)
Definition feed_segment (speech_like : bool) (buffer : frame) : M unit :=
  s <- get ;;
  when ((speech_like || (0 <? hold s)) && transcription_enabled s)
    (modify (set_segment_active true) ;;
     modify (set_segment_has_audio true) ;;
     t <- deref_transcriber ;;
     emit (Feed buffer) ;;
     modify (set_transcriber (Some (feed t buffer)))).

(** main.cpp lines 93-104. *)
Definition close_segment (speech_like : bool) : M unit :=
  s <- get ;;
  when (negb speech_like && (hold s =? 0) && segment_active s)
    (modify (set_segment_active false) ;;
     s <- get ;;
     when (transcription_enabled s && segment_has_audio s)
       (t <- deref_transcriber ;;
        emit Flush ;;
        let '(text, t') := flush recognise t in
        modify (set_transcriber (Some t')) ;;
        if (String.length text =? 0)%nat
        then emit NoSpeechRecognised
        else emit (TranscriptionResult text)) ;;
     modify (set_segment_has_audio false)).

(** One pass through the body of the [while] loop (main.cpp lines 67-104). *)
Definition loop_body (r : read_result) : M unit :=
  match r with
  | Read_throws what => throw (Uncaught what)
  | Samples buffer =>
      if (List.length buffer =? 0)%nat then ret tt
      else
        let level := dbfs buffer in
        let speech_like := SFltb trigger_dbfs level in
        update_hot speech_like level ;;
        update_hold ;;
        feed_segment speech_like buffer ;;
        close_segment speech_like
  end.

(** What one evaluation of the loop condition and the read after it see:
    the value of [g_running] (cleared by the SIGINT handler) and the
    result of [capture.read]. *)
Record tick : Type := mkTick {
  g_running : bool;
  capture_read : read_result
}.

Inductive status : Type :=
| Running
| Exited (code : Z)
| Aborted (e : abort).

Record run : Type := mkRun {
  how : status;
  vars : locals;
  trace : list event
}.

(** The [while (g_running)] loop over the ticks that are given; [Running]
    when they are used up with the loop still going.  After the loop
    [main] prints a farewell and returns 0; no call is made on the
    transcriber there. *)
Fixpoint main_loop (ticks : list tick) (s : locals) : run :=
  match ticks with
  | [] => mkRun Running s []
  | t :: rest =>
      if g_running t then
        match loop_body (capture_read t) s with
        | (Done _, s1, out1) =>
            let r := main_loop rest s1 in
            mkRun (how r) (vars r) (out1 ++ trace r)
        | (Stop e, s1, out1) => mkRun (Aborted e) s1 out1
        end
      else mkRun (Exited 0) s []
  end.

(** Ticks with [g_running] set, one per frame read. *)
Definition frames (bufs : list frame) : list tick :=
  map (fun b => mkTick true (Samples b)) bufs.

End Driver.

(** ** Sample data for the closed examples *)

(** Two frames whose level is known without evaluating a logarithm: at full
    scale the meter's quotient is exactly 1 and the level is [+0.0]; on
    digital silence it is [20 * log10 (1e-9 / 32768)], about -270.3. *)
Definition full_scale : frame := repeat (-32768) 512.
Definition silence : frame := repeat 0 512.

(** [-270.30899] as a binary32 value (bits [0xc387278d]). *)
Definition silence_floor : spec_float := S754_finite true 8857485 (-15).

(** A level meter for the examples: the value above on an all-zero frame and
    [+0.0] on the others, of which the examples use [full_scale] alone. *)
Definition sample_dbfs (x : frame) : spec_float :=
  if forallb (Z.eqb 0) x then silence_floor else S754_zero false.

(** An engine for the examples: it hears the same word in whatever it got. *)
Definition sample_text (chunks : list frame) : string :=
  match chunks with
  | [] => EmptyString
  | _ :: _ => "hello"%string
  end.

(** The variables after nine full-scale frames from the start of a session
    with transcription on, and after the tenth. *)
Definition nine_loud : locals :=
  mkLocals 9 0 true true true (Some (mkTranscriber true (repeat full_scale 9))).

Definition armed : locals :=
  mkLocals 0 19 true true true (Some (mkTranscriber true (repeat full_scale 10))).

(** The message of the constructor in a build without the engine, and the
    operation the ALSA backend names when a read fails. *)
Definition no_engine : string := "Vosk support not enabled; rebuild with EVA_ENABLE_VOSK=ON".
Definition failed_read : string := "snd_pcm_readi".

(** ** Reading traces *)

Definition is_speech_detected (e : event) : bool :=
  match e with SpeechDetected _ => true | _ => false end.

Definition is_sink_call (e : event) : bool :=
  match e with Feed _ | Flush => true | _ => false end.

Definition is_flush (e : event) : bool :=
  match e with Flush => true | _ => false end.

Definition is_transcription (e : event) : bool :=
  match e with TranscriptionResult _ | NoSpeechRecognised => true | _ => false end.

(** The [enabled] flag was set from a transcriber that exists: what lines
    39-52 of main.cpp establish. *)
Definition sink_ok (s : locals) : Prop :=
  transcription_enabled s = true -> transcriber s <> None.

Definition counters_in_range (s : locals) : Prop :=
  0 <= hot s <= trigger_frames - 1 /\ 0 <= hold s <= release_frames - 1.

(** The variables while a segment is open with transcription on, and once
    it is closed and the release window has run out. *)
Definition segment_open (s : locals) : Prop :=
  transcription_enabled s = true /\ transcriber s <> None /\
  segment_active s = true /\ segment_has_audio s = true.

Definition segment_closed (s : locals) : Prop :=
  hold s = 0 /\ segment_active s = false.

(** A frame the loop classifies as speech-like, and one it does not. *)
Definition loud (dbfs : frame -> spec_float) (b : frame) : Prop :=
  b <> [] /\ SFltb trigger_dbfs (dbfs b) = true.

Definition quiet (dbfs : frame -> spec_float) (b : frame) : Prop :=
  b <> [] /\ SFleb (dbfs b) trigger_dbfs = true.

(** A read that gives no speech-like frame: it throws, or returns nothing,
    or returns a frame at or below the trigger level. *)
Definition quiet_or_empty (dbfs : frame -> spec_float) (r : read_result) : Prop :=
  match r with
  | Read_throws _ => True
  | Samples b => b <> [] -> SFleb (dbfs b) trigger_dbfs = true
  end.

(** ** Reading the engine's result (transcriber.cpp lines 13-23) *)

(** The double quote and the colon, and the key searched for, quotes
    included. *)
Definition dquote : ascii := "034"%char.
Definition colon : ascii := ":"%char.
Definition text_key : string :=
  String dquote ("text" ++ String dquote EmptyString)%string.

(** [extract_text_field]: [std::string::find] from a position is
    [String.index], [npos] is [None], and [substr] is [substring]. *)
Definition extract_text_field (json : string) : string :=
  match index 0 text_key json with
  | None => EmptyString
  | Some pos =>
      match index pos (String colon EmptyString) json with
      | None => EmptyString
      | Some pos =>
          match index pos (String dquote EmptyString) json with
          | None => EmptyString
          | Some pos =>
              match index (pos + 1) (String dquote EmptyString) json with
              | None => EmptyString
              | Some e => substring (pos + 1) (e - pos - 1) json
              end
          end
      end
  end.

(** [Impl::flush] in a build with the engine (transcriber.cpp lines 69-75):
    the raw final result, null read as the empty string, goes through
    [extract_text_field]. *)
Definition vosk_text (final_result : list frame -> option string)
           (chunks : list frame) : string :=
  extract_text_field
    match final_result chunks with
    | Some raw => raw
    | None => EmptyString
    end.

(** [c] does not occur in [s]. *)
Fixpoint lacks (c : ascii) (s : string) : bool :=
  match s with
  | EmptyString => true
  | String x s' => negb (Ascii.eqb x c) && lacks c s'
  end.

(** ** The capture backends (audio_capture.cpp) *)

(** [AudioConfig] (audio_capture.hpp): three [unsigned] fields and the
    device name. *)
Record AudioConfig : Type := mkAudioConfig {
  sample_rate : Z;
  channels : Z;
  frames_per_buffer : Z;
  device : string
}.

(** Arithmetic in [std::size_t] and conversion to [unsigned]. *)
Definition size_wrap (z : Z) : Z := z mod 2 ^ 64.
Definition unsigned_wrap (z : Z) : Z := z mod 2 ^ 32.

(** [std::vector::resize]: cut, or filled up with zeros. *)
Definition resize (n : Z) (v : frame) : frame :=
  firstn (Z.to_nat n) v ++ repeat 0 (Z.to_nat n - List.length v).

(** Samples stored from the start of a buffer, as [snd_pcm_readi] does
    through [out.data()]. *)
Definition overwrite (data v : frame) : frame :=
  data ++ skipn (List.length data) v.

(** What a read hands to its caller: an exception, or the count returned
    and the content of [out]. *)
Inductive read_outcome : Type :=
| Read_raises (what : string)
| Read_returns (count : Z) (out : frame).

(** How the loop of [main] sees it: it tests the count and, when the count
    is not zero, works on the buffer. *)
Definition as_loop_read (r : read_outcome) : read_result :=
  match r with
  | Read_raises what => Read_throws what
  | Read_returns count out => Samples (if count =? 0 then [] else out)
  end.

(** *** ALSA (lines 248-366) *)

Record alsa_impl : Type := mkAlsa {
  cfg_ : AudioConfig;
  handle_ : bool;
  started_ : bool
}.

(** The calls made on the library, and the one line [start] may print. *)
Inductive alsa_call : Type :=
| Pcm_open (ok : bool)
| Params_malloc (ok : bool)
| Params_any
| Set_access
| Set_format
| Set_channels
| Set_rate_near
| Set_period_size_near
| Hw_params
| Params_free
| Pcm_prepare
| Pcm_drop
| Pcm_close
| Warn_rate (rate : Z).

(** What the library answers to the calls of one [start]: the error codes
    (negative on failure), whether the allocation gave a block, and the
    rate and period size it settled on. *)
Record alsa_replies : Type := mkReplies {
  open_err : Z;
  malloc_ok : bool;
  access_err : Z;
  format_err : Z;
  channels_err : Z;
  rate_err : Z;
  rate_chosen : Z;
  period_err : Z;
  period_chosen : Z;
  hw_params_err : Z;
  prepare_err : Z
}.

Section Alsa.

(** [snd_strerror], the library's text for an error code. *)
Variable snd_strerror : Z -> string.

(** [alsa_error] (lines 248-252). *)
Definition alsa_error (code : Z) (context : string) : string :=
  (context ++ ": " ++ snd_strerror code)%string.

(** [Impl::start] (lines 280-345): the exception thrown if any, the object
    afterwards, and the calls made.  [snd_pcm_open] stores a handle when
    it succeeds. *)
Definition alsa_start (r : alsa_replies) (impl : alsa_impl)
  : option string * alsa_impl * list alsa_call :=
  if started_ impl then (None, impl, [])
  else if open_err r <? 0 then
    (Some (alsa_error (open_err r) "snd_pcm_open"), impl, [Pcm_open false])
  else
    let opened := mkAlsa (cfg_ impl) true (started_ impl) in
    if negb (malloc_ok r) then
      (Some "Failed to allocate ALSA hw params"%string, opened,
       [Pcm_open true; Params_malloc false])
    else
      let c0 := [Pcm_open true; Params_malloc true; Params_any; Set_access] in
      if access_err r <? 0 then
        (Some (alsa_error (access_err r) "snd_pcm_hw_params_set_access"),
         opened, c0 ++ [Params_free])
      else
      let c1 := c0 ++ [Set_format] in
      if format_err r <? 0 then
        (Some (alsa_error (format_err r) "snd_pcm_hw_params_set_format"),
         opened, c1 ++ [Params_free])
      else
      let c2 := c1 ++ [Set_channels] in
      if channels_err r <? 0 then
        (Some (alsa_error (channels_err r) "snd_pcm_hw_params_set_channels"),
         opened, c2 ++ [Params_free])
      else
      let c3 := c2 ++ [Set_rate_near] in
      if rate_err r <? 0 then
        (Some (alsa_error (rate_err r) "snd_pcm_hw_params_set_rate_near"),
         opened, c3 ++ [Params_free])
      else
      let adjusted := negb (rate_chosen r =? sample_rate (cfg_ impl)) in
      let cfg1 :=
        if adjusted
        then mkAudioConfig (rate_chosen r) (channels (cfg_ impl))
               (frames_per_buffer (cfg_ impl)) (device (cfg_ impl))
        else cfg_ impl in
      let c4 := c3 ++ (if adjusted then [Warn_rate (rate_chosen r)] else [])
                   ++ [Set_period_size_near] in
      if period_err r <? 0 then
        (Some (alsa_error (period_err r)
                 "snd_pcm_hw_params_set_period_size_near"),
         mkAlsa cfg1 true false, c4 ++ [Params_free])
      else
      let cfg2 :=
        mkAudioConfig (sample_rate cfg1) (channels cfg1)
          (unsigned_wrap (period_chosen r)) (device cfg1) in
      let c5 := c4 ++ [Hw_params; Params_free] in
      if hw_params_err r <? 0 then
        (Some (alsa_error (hw_params_err r) "snd_pcm_hw_params"),
         mkAlsa cfg2 true false, c5)
      else
      let c6 := c5 ++ [Pcm_prepare] in
      if prepare_err r <? 0 then
        (Some (alsa_error (prepare_err r) "snd_pcm_prepare"),
         mkAlsa cfg2 true false, c6)
      else (None, mkAlsa cfg2 true true, c6).

(** [Impl::~Impl] (lines 272-278). *)
Definition alsa_destroy (impl : alsa_impl) : alsa_impl * list alsa_call :=
  if handle_ impl
  then (mkAlsa (cfg_ impl) false (started_ impl), [Pcm_drop; Pcm_close])
  else (impl, []).

(** [Impl::read] (lines 347-366), given what [snd_pcm_readi] returns and
    stores and what [snd_pcm_recover] returns if it is called. *)
Definition alsa_read (impl : alsa_impl) (readi : Z) (stored : frame)
           (recover : Z) (out : frame) : read_outcome :=
  if negb (handle_ impl) then Read_returns 0 out
  else
    let out1 :=
      resize (size_wrap (frames_per_buffer (cfg_ impl) * channels (cfg_ impl)))
             out in
    let out2 := overwrite stored out1 in
    let frames := readi in
    let frames := if frames <? 0 then recover else frames in
    if frames <? 0 then
      Read_raises (alsa_error (int_wrap frames) "snd_pcm_readi")
    else if frames =? 0 then Read_returns 0 []
    else
      let samples := size_wrap (frames * channels (cfg_ impl)) in
      Read_returns samples (resize samples out2).

End Alsa.

(** The handle and the parameter block are used as they should be: the
    block is freed once if it was allocated and not touched before or
    after; the handle, if opened, is closed by the end. *)
Fixpoint params_discipline (live : bool) (calls : list alsa_call) : bool :=
  match calls with
  | [] => negb live
  | Params_malloc true :: rest => negb live && params_discipline true rest
  | Params_free :: rest => live && params_discipline false rest
  | (Params_any | Set_access | Set_format | Set_channels | Set_rate_near
     | Set_period_size_near | Hw_params) :: rest =>
      live && params_discipline live rest
  | _ :: rest => params_discipline live rest
  end.

Fixpoint handle_discipline (open : bool) (calls : list alsa_call) : bool :=
  match calls with
  | [] => negb open
  | Pcm_open true :: rest => negb open && handle_discipline true rest
  | Pcm_close :: rest => open && handle_discipline false rest
  | (Params_any | Set_access | Set_format | Set_channels | Set_rate_near
     | Set_period_size_near | Hw_params | Pcm_prepare | Pcm_drop) :: rest =>
      open && handle_discipline open rest
  | _ :: rest => handle_discipline open rest
  end.

(** Every reply of the library to [start] is a success. *)
Definition all_succeed (r : alsa_replies) : bool :=
  (0 <=? open_err r) && malloc_ok r && (0 <=? access_err r) &&
  (0 <=? format_err r) && (0 <=? channels_err r) && (0 <=? rate_err r) &&
  (0 <=? period_err r) && (0 <=? hw_params_err r) && (0 <=? prepare_err r).

(** *** CoreAudio (lines 36-171): the queue between the callback and read *)







(** ** What a trace says about the audio handed to the engine *)

(** The frames passed to [feed], in order. *)
Definition fed (tr : list event) : list frame :=
  flat_map (fun e => match e with Feed d => [d] | _ => [] end) tr.

(** The frames fed after the last [flush] of the trace, [acc] being those
    fed before the trace began. *)
Fixpoint since_flush (acc : list frame) (tr : list event) : list frame :=
  match tr with
  | [] => acc
  | Feed d :: tr' => since_flush (acc ++ [d]) tr'
  | Flush :: tr' => since_flush [] tr'
  | _ :: tr' => since_flush acc tr'
  end.

(** One entry per [flush] of the trace: the frames fed since the flush
    before it. *)
Fixpoint flushed_segments (acc : list frame) (tr : list event) : list (list frame) :=
  match tr with
  | [] => []
  | Feed d :: tr' => flushed_segments (acc ++ [d]) tr'
  | Flush :: tr' => acc :: flushed_segments [] tr'
  | _ :: tr' => flushed_segments acc tr'
  end.

(** The texts of the transcription lines, the line for an empty result
    counting as the empty text. *)
Definition printed (tr : list event) : list string :=
  flat_map (fun e => match e with
                     | TranscriptionResult text => [text]
                     | NoSpeechRecognised => [EmptyString]
                     | _ => []
                     end) tr.

(** The levels announced. *)
Definition announced (tr : list event) : list spec_float :=
  flat_map (fun e => match e with SpeechDetected l => [l] | _ => [] end) tr.

(** What the recognizer behind [transcriber] has accepted and not yet
    given back. *)
Definition pending (s : locals) : list frame :=
  match transcriber s with
  | Some t => accepted t
  | None => []
  end.

(** The transcriber exists and its engine is ready, as after a constructor
    that returned. *)
Definition engine_ready (s : locals) : Prop :=
  match transcriber s with
  | Some t => ready t = true
  | None => False
  end.

(** ** The level meter (utils.cpp) *)

(** [static_cast<double>] of an integer, and [static_cast<float>] of a
    double: rounding to nearest, ties to even, in binary64 and binary32. *)
Definition double_of_int (z : Z) : spec_float :=
  binary_normalize 53 1024 z 0 false.

Definition float_of_double (x : spec_float) : spec_float :=
  match x with
  | S754_finite s m e => binary_round 24 128 s m e
  | _ => x
  end.

(** The loop of [rms] (utils.cpp lines 7-10): [acc] starts at [0.0] and
    takes the square of each sample in turn, all in [double]. *)
Definition accumulate (x : frame) : spec_float :=
  fold_left
    (fun acc sample =>
       SFadd 53 1024 acc
         (SFmul 53 1024 (double_of_int sample) (double_of_int sample)))
    x (S754_zero false).

(** [rms] (utils.cpp lines 5-13). *)
Definition rms (x : frame) : spec_float :=
  match x with
  | [] => S754_zero false
  | _ :: _ =>
      let mean :=
        SFdiv 53 1024 (accumulate x)
              (double_of_int (Z.of_nat (List.length x))) in
      float_of_double (SFsqrt 53 1024 mean)
  end.

(** The constants of [dbfs] as binary32 values: [1e-9f] (the nearest
    float, 9007199 * 2^-53), [32768.0f] and [20.0f]. *)
Definition epsilon_f : spec_float := S754_finite false 9007199 (-53).
Definition ref_f : spec_float := S754_finite false 8388608 (-8).
Definition twenty_f : spec_float := S754_finite false 10485760 (-19).

Section LevelMeter.

(** [std::log10] on [float]: the mathematical library is not part of the
    repository. *)
Variable log10 : spec_float -> spec_float.

(** [dbfs] (utils.cpp lines 15-19), every operation in [float]. *)
Definition dbfs (x : frame) : spec_float :=
  let r := rms x in
  SFmul 24 128 twenty_f
        (log10 (SFdiv 24 128 (SFadd 24 128 r epsilon_f) ref_f)).

End LevelMeter.

(** The sum of the squares of the samples, in exact arithmetic, and what
    "sqrt(mean(sample^2))" and "20 * log10((rms + epsilon) / full_scale)"
    come to with that sum: the quotient and the root rounded once each in
    [double], the result rounded to [float]. *)
Fixpoint sum_of_squares (x : frame) : Z :=
  match x with
  | [] => 0
  | sample :: rest => sample * sample + sum_of_squares rest
  end.

Definition rms_formula (x : frame) : spec_float :=
  float_of_double
    (SFsqrt 53 1024
       (SFdiv 53 1024 (double_of_int (sum_of_squares x))
              (double_of_int (Z.of_nat (List.length x))))).

Definition dbfs_formula (log10 : spec_float -> spec_float)
           (r : spec_float) : spec_float :=
  SFmul 24 128 twenty_f
        (log10 (SFdiv 24 128 (SFadd 24 128 r epsilon_f) ref_f)).

(** A sample as [int16_t] holds it. *)
Definition int16 (sample : Z) : Prop := -32768 <= sample <= 32767.

(** The double nearest to a positive integer below 2^53: itself, with its
    mantissa on 53 bits. *)
Definition canon (s : bool) (v : Z) : spec_float :=
  S754_finite s (Z.to_pos (v * 2 ^ (53 - Zdigits2 v))) (Zdigits2 v - 53).

(** A read that returns, as every read of the CoreAudio backend does. *)
Definition read_returned (r : read_result) : Prop :=
  match r with
  | Samples _ => True
  | Read_throws _ => False
  end.

(** ** More sample data *)

(** The configuration [main] captures with (audio_capture.hpp, main.cpp
    line 27), a device before [start] and one that is capturing. *)
Definition default_config : AudioConfig :=
  mkAudioConfig 16000 1 512 "default".
Definition fresh_device : alsa_impl := mkAlsa default_config false false.
Definition open_device : alsa_impl := mkAlsa default_config true true.

(** A library that grants everything asked, and texts for two codes. *)
Definition willing : alsa_replies :=
  mkReplies 0 true 0 0 0 0 16000 0 512 0 0.
Definition sample_strerror (code : Z) : string :=
  if code =? -32 then "Broken pipe"%string else "Unknown error"%string.

(** A logarithm for the examples, right where it is exact: [log10 1.0] is
    [+0.0]; elsewhere it says nothing. *)
Definition sample_log10 (x : spec_float) : spec_float :=
  if SFeqb x (S754_finite false 8388608 (-23)) then S754_zero false
  else S754_nan.

(** The pieces of a final result as the engine writes it. *)
Definition result_open : string := "{ ".
Definition result_gap : string := " ".
Definition result_close : string := " }".
Definition heard : string := "hello world".

(** The transcriber is there when needed and the two segment flags are
    equal. *)
Definition flags_agree (s : locals) : Prop :=
  sink_ok s /\ segment_has_audio s = segment_active s.

(** What a stretch of the loop does to the recognizer: it holds the frames
    fed since the last flush, and each line printed is the engine's text
    for the frames of one flush. *)
Definition audio_accounted (recognise : list frame -> string)
           (s : locals) (tr : list event) (s1 : locals) : Prop :=
  pending s1 = since_flush (pending s) tr /\
  printed tr = map recognise (flushed_segments (pending s) tr).

(** Between segments nothing is left in the recognizer. *)
Definition drained_when_idle (s : locals) : Prop :=
  engine_ready s /\ transcription_enabled s = true /\
  segment_has_audio s = segment_active s /\
  (segment_active s = false -> pending s = []).

(** * Properties *)

Lemma Forall_prefix {A} (P : A -> Prop) (l : list A) :
  Forall P l -> forall k, Forall P (firstn k l).
Proof.
  induction 1 as [|x l Hx Hl IH]; intros [|k]; simpl; constructor; auto.
Qed.

Lemma int_wrap_small z : - 2 ^ 31 <= z < 2 ^ 31 -> int_wrap z = z.
Proof.
  intros H. unfold int_wrap.
  rewrite Z.mod_small; lia.
Qed.

Lemma SFleb_not_ltb x y : SFleb x y = true -> SFltb y x = false.
Proof.
  unfold SFleb, SFltb.
  destruct x as [sx|sx| |sx mx ex], y as [sy|sy| |sy my ey]; simpl;
    try destruct sx; try destruct sy; simpl; try congruence.
  - rewrite (Z.compare_antisym ex ey).
    fold (Pos.compare my mx). rewrite (Pos.compare_antisym mx my).
    fold (Pos.compare mx my).
    destruct (ex ?= ey), (mx ?= my)%positive; simpl; congruence.
  - rewrite (Z.compare_antisym ex ey).
    fold (Pos.compare my mx). rewrite (Pos.compare_antisym mx my).
    fold (Pos.compare mx my).
    destruct (ex ?= ey), (mx ?= my)%positive; simpl; congruence.
Qed.

Lemma filter_orb_nil {A} (f g : A -> bool) (l : list A) :
  filter (fun x => f x || g x) l = [] -> filter f l = [] /\ filter g l = [].
Proof.
  induction l as [|x l IH]; simpl; [auto|].
  destruct (f x), (g x); simpl; try discriminate. exact IH.
Qed.

Lemma length_eqb_0 {A} (l : list A) : l <> [] -> (List.length l =? 0)%nat = false.
Proof. destruct l; [congruence | reflexivity]. Qed.

(** Unfold one pass of the loop body, deciding its tests one at a time. *)
Ltac crunch :=
  cbv beta iota zeta delta
    [loop_body update_hot update_hold feed_segment close_segment
     deref_transcriber bind when modify get emit ret throw
     hot hold segment_active segment_has_audio transcription_enabled
     transcriber set_hot set_hold set_segment_active
     set_segment_has_audio set_transcriber fst snd app
     how vars trace].

Ltac split_tests :=
  repeat (crunch;
          match goal with
          | |- context [if ?b then _ else _] => destruct b eqn:?
          | |- context [match ?x with Some _ => _ | None => _ end] =>
              destruct x eqn:?
          | |- context [flush ?r ?t] => destruct (flush r t) eqn:?
          end);
  crunch.

(** Turn the integer tests met on the way into facts for [lia]. *)
Ltac tests_to_Z :=
  unfold trigger_frames, release_frames in *;
  repeat match goal with
    | H : (_ <=? _) = true |- _ => apply Z.leb_le in H
    | H : (_ <=? _) = false |- _ => apply Z.leb_gt in H
    | H : (_ <? _) = true |- _ => apply Z.ltb_lt in H
    | H : (_ <? _) = false |- _ => apply Z.ltb_ge in H
    | H : (_ =? _) = true |- _ => apply Z.eqb_eq in H
    | H : (_ =? _) = false |- _ => apply Z.eqb_neq in H
    end.

Section Properties.

Variable dbfs : frame -> spec_float.
Variable recognise : list frame -> string.

Lemma body_keeps_range r s :
  counters_in_range s ->
  counters_in_range (snd (fst (loop_body dbfs recognise r s))).
Proof.
  unfold counters_in_range, trigger_frames, release_frames.
  destruct s as [h ho a au en t]; cbn [hot hold]; intros [Hh Ho].
  destruct r as [what|buffer]; [cbn; lia|].
  split_tests; unfold trigger_frames, release_frames in *;
    rewrite ?int_wrap_small in * by lia; tests_to_Z; lia.
Qed.

(** *** The loop, tick by tick *)

Lemma main_loop_nil s : main_loop dbfs recognise [] s = mkRun Running s [].
Proof. reflexivity. Qed.

Lemma main_loop_stop_flag t rest s :
  g_running t = false ->
  main_loop dbfs recognise (t :: rest) s = mkRun (Exited 0) s [].
Proof. intros H; simpl; rewrite H; reflexivity. Qed.

Lemma main_loop_done t rest s s1 out1 :
  g_running t = true ->
  loop_body dbfs recognise (capture_read t) s = (Done tt, s1, out1) ->
  main_loop dbfs recognise (t :: rest) s =
  mkRun (how (main_loop dbfs recognise rest s1))
        (vars (main_loop dbfs recognise rest s1))
        (out1 ++ trace (main_loop dbfs recognise rest s1)).
Proof. intros H E; simpl; rewrite H, E; reflexivity. Qed.

Lemma main_loop_frame b rest s s1 out1 :
  loop_body dbfs recognise (Samples b) s = (Done tt, s1, out1) ->
  main_loop dbfs recognise (mkTick true (Samples b) :: rest) s =
  mkRun (how (main_loop dbfs recognise rest s1))
        (vars (main_loop dbfs recognise rest s1))
        (out1 ++ trace (main_loop dbfs recognise rest s1)).
Proof.
  intros E.
  apply (main_loop_done (mkTick true (Samples b))); [reflexivity | exact E].
Qed.

Lemma main_loop_stop t rest s e s1 out1 :
  g_running t = true ->
  loop_body dbfs recognise (capture_read t) s = (Stop e, s1, out1) ->
  main_loop dbfs recognise (t :: rest) s = mkRun (Aborted e) s1 out1.
Proof. intros H E; simpl; rewrite H, E; reflexivity. Qed.

(** A run that is still going continues with the ticks that follow. *)
Lemma main_loop_app pre post s s1 out1 :
  main_loop dbfs recognise pre s = mkRun Running s1 out1 ->
  main_loop dbfs recognise (pre ++ post) s =
  mkRun (how (main_loop dbfs recognise post s1))
        (vars (main_loop dbfs recognise post s1))
        (out1 ++ trace (main_loop dbfs recognise post s1)).
Proof.
  revert s out1.
  induction pre as [|t pre IH]; intros s out1 E.
  - rewrite main_loop_nil in E. injection E as -> <-.
    simpl. destruct (main_loop dbfs recognise post s1); reflexivity.
  - simpl in E |- *. destruct (g_running t); [|discriminate].
    destruct (loop_body dbfs recognise (capture_read t) s) as [[[[]|e] s2] out2];
      [|discriminate].
    injection E as Ehow Evars Etrace.
    destruct (main_loop dbfs recognise pre s2) as [h v tr] eqn:Epre.
    simpl in Ehow, Evars, Etrace. subst h v out1.
    rewrite (IH s2 tr Epre). simpl. rewrite app_assoc. reflexivity.
Qed.

(** A property of the variables that every pass of the body keeps holds
    wherever the loop stops. *)
Lemma main_loop_keeps (P : locals -> Prop) :
  (forall r s, P s -> P (snd (fst (loop_body dbfs recognise r s)))) ->
  forall ticks s, P s -> P (vars (main_loop dbfs recognise ticks s)).
Proof.
  intros step. induction ticks as [|t rest IH]; intros s Hs; simpl; [exact Hs|].
  destruct (g_running t); [|exact Hs].
  specialize (step (capture_read t) s Hs).
  destruct (loop_body dbfs recognise (capture_read t) s) as [[[[]|e] s1] out1];
    simpl in step |- *; auto.
Qed.

(** The same with a condition on the reads, a kind of event that no
    pass prints, and a condition on how a pass may stop. *)
Lemma main_loop_keeps_quiet
      (Q : read_result -> Prop) (P : locals -> Prop)
      (f : event -> bool) (G : abort -> Prop) :
  (forall r s, Q r -> P s ->
     P (snd (fst (loop_body dbfs recognise r s))) /\
     filter f (snd (loop_body dbfs recognise r s)) = [] /\
     (forall e, fst (fst (loop_body dbfs recognise r s)) = Stop e -> G e)) ->
  forall ticks s,
    Forall (fun t => Q (capture_read t)) ticks -> P s ->
    P (vars (main_loop dbfs recognise ticks s)) /\
    filter f (trace (main_loop dbfs recognise ticks s)) = [] /\
    (forall e, how (main_loop dbfs recognise ticks s) = Aborted e -> G e).
Proof.
  intros step. induction ticks as [|t rest IH]; intros s Hq Hs; simpl.
  - repeat split; auto. discriminate.
  - inversion Hq as [|? ? Ht Hrest]; subst.
    destruct (g_running t); [|simpl; repeat split; auto; discriminate].
    destruct (step (capture_read t) s Ht Hs) as (Hs1 & Hout & Hstop).
    destruct (loop_body dbfs recognise (capture_read t) s) as [[[[]|e] s1] out1];
      simpl in Hs1, Hout, Hstop |- *.
    + destruct (IH s1 Hrest Hs1) as (Hv & Htr & Hhow).
      rewrite filter_app, Hout, Htr. repeat split; auto.
    + repeat split; auto. intros e' E; injection E as <-. auto.
Qed.

Lemma initial_in_range c : counters_in_range (initial c).
Proof. destruct c; unfold counters_in_range; cbn; lia. Qed.

(** *** Counters *)

(** C9: from the start of a session, wherever the loop stands, [hot] is
    between 0 and [trigger_frames - 1] = 9 and [hold] between 0 and
    [release_frames - 1] = 19; [hold] is never [release_frames] between
    two frames, the frame that arms it having decremented it as well. *)
Theorem counters_bounded_after_every_frame c ticks :
  let s := vars (main_loop dbfs recognise ticks (initial c)) in
  0 <= hot s <= 9 /\ 0 <= hold s <= 19 /\ hold s <> release_frames.
Proof.
  intros s.
  assert (R : counters_in_range s).
  { apply main_loop_keeps; [apply body_keeps_range | apply initial_in_range]. }
  unfold counters_in_range, trigger_frames, release_frames in *. lia.
Qed.

(** *** Empty reads, shutdown, failed reads *)

(** C7: a read that returns no samples changes none of [hot], [hold],
    [segment_active], [segment_has_audio], makes no call on the
    transcriber and prints nothing; the loop goes on as if the tick had
    not been there. *)
Theorem empty_frame_skipped s rest :
  loop_body dbfs recognise (Samples []) s = (Done tt, s, []) /\
  main_loop dbfs recognise (mkTick true (Samples []) :: rest) s =
  main_loop dbfs recognise rest s.
Proof.
  split; [reflexivity|].
  simpl. destruct (main_loop dbfs recognise rest s); reflexivity.
Qed.

(** C8: when the loop condition finds [g_running] cleared, the loop is
    left with the variables and the trace as they stood after the last
    frame: no flush is called and no transcription printed, whatever
    [segment_active] is. *)
Theorem shutdown_abandons_segment pre s s1 out rd rest :
  main_loop dbfs recognise pre s = mkRun Running s1 out ->
  main_loop dbfs recognise (pre ++ mkTick false rd :: rest) s =
  mkRun (Exited 0) s1 out.
Proof.
  intros E. rewrite (main_loop_app _ _ _ _ _ E).
  rewrite main_loop_stop_flag by reflexivity.
  simpl. rewrite app_nil_r. reflexivity.
Qed.

(** A read that throws is caught nowhere in the loop, unlike the throw of
    [capture.start()] and of the [Transcriber] constructor, which [main]
    catches and reports: the run ends there with the exception, the
    variables and the trace being those left by the frames before it, and
    no later tick is looked at. *)
Theorem read_failure_ends_session pre s s1 out what rest :
  main_loop dbfs recognise pre s = mkRun Running s1 out ->
  main_loop dbfs recognise (pre ++ mkTick true (Read_throws what) :: rest) s =
  mkRun (Aborted (Uncaught what)) s1 out.
Proof.
  intros E. rewrite (main_loop_app _ _ _ _ _ E).
  simpl. rewrite app_nil_r. reflexivity.
Qed.

(** The calls on the transcriber cannot fail towards the loop: with the
    transcriber there whenever transcription is enabled, a frame is
    always processed to the end of the body. *)
Lemma frame_body_completes b s :
  sink_ok s ->
  exists s1 out, loop_body dbfs recognise (Samples b) s = (Done tt, s1, out).
Proof.
  unfold sink_ok. destruct s as [h ho a au en t]; cbn [transcription_enabled transcriber].
  intros ok.
  split_tests; eauto;
    rewrite ?andb_true_iff in *;
    repeat match goal with H : _ /\ _ |- _ => destruct H end;
    subst; exfalso; apply ok; reflexivity.
Qed.

(** *** Frames below the trigger level *)

Lemma body_quiet_keeps_hot r s :
  quiet_or_empty dbfs r -> hot s = 0 ->
  hot (snd (fst (loop_body dbfs recognise r s))) = 0 /\
  filter is_speech_detected (snd (loop_body dbfs recognise r s)) = [].
Proof.
  destruct s as [h ho a au en t]; cbn [hot]; intros Hq ->.
  destruct r as [what|[|x b]]; [split; reflexivity ..|].
  assert (Hlt : SFltb trigger_dbfs (dbfs (x :: b)) = false)
    by (apply SFleb_not_ltb, Hq; discriminate).
  cbv beta iota zeta delta [loop_body]. rewrite Hlt.
  split_tests; try discriminate; split; reflexivity.
Qed.

(** C6: in a run whose non-empty frames are all at or below -35.0 dBFS,
    [hot] is 0 after every frame and no speech is ever announced. *)
Theorem quiet_run_never_triggers ticks s k :
  hot s = 0 ->
  Forall (fun t => quiet_or_empty dbfs (capture_read t)) ticks ->
  let r := main_loop dbfs recognise (firstn k ticks) s in
  hot (vars r) = 0 /\ filter is_speech_detected (trace r) = [].
Proof.
  intros Hs Hq r.
  destruct (main_loop_keeps_quiet
              (quiet_or_empty dbfs) (fun s => hot s = 0)
              is_speech_detected (fun _ => True)) with
    (ticks := firstn k ticks) (s := s) as (Hhot & Htr & _); auto.
  - intros rd s0 Hrd Hs0.
    destruct (body_quiet_keeps_hot rd s0 Hrd Hs0); auto.
  - apply Forall_prefix, Hq.
Qed.

(** *** Transcription disabled *)

Lemma body_when_disabled r s :
  transcription_enabled s = false ->
  (transcription_enabled (snd (fst (loop_body dbfs recognise r s))) = false /\
   (segment_active s = false ->
    segment_active (snd (fst (loop_body dbfs recognise r s))) = false) /\
   (segment_has_audio s = false ->
    segment_has_audio (snd (fst (loop_body dbfs recognise r s))) = false)) /\
  filter (fun e => is_sink_call e || is_transcription e)
         (snd (loop_body dbfs recognise r s)) = [] /\
  (forall e, fst (fst (loop_body dbfs recognise r s)) = Stop e ->
             e <> Null_dereference).
Proof.
  destruct s as [h ho a au en t];
    cbn [transcription_enabled segment_active segment_has_audio]; intros ->.
  destruct r as [what|b]; [cbn; repeat split; auto; congruence|].
  split_tests; rewrite ?andb_false_r in *; try discriminate;
    cbn; repeat split; auto; congruence.
Qed.

Lemma ctor_throw_disables what :
  transcription_enabled (initial (Ctor_throws what)) = false /\
  transcriber (initial (Ctor_throws what)) = None.
Proof. split; reflexivity. Qed.

(** C10: with [transcription_enabled] false the loop calls neither
    [feed] nor [flush] and never goes through the [transcriber] pointer,
    whatever that pointer is (null after a constructor that threw). *)
Theorem disabled_sink_never_called ticks s :
  transcription_enabled s = false ->
  let r := main_loop dbfs recognise ticks s in
  filter is_sink_call (trace r) = [] /\ how r <> Aborted Null_dereference.
Proof.
  intros Hen r.
  destruct (main_loop_keeps_quiet
              (fun _ => True) (fun s => transcription_enabled s = false)
              (fun e => is_sink_call e || is_transcription e)
              (fun e => e <> Null_dereference)) with
    (ticks := ticks) (s := s) as (_ & Htr & Hhow); auto.
  - intros rd s0 _ Hs0.
    destruct (body_when_disabled rd s0 Hs0) as ((H1 & _) & H2 & H3); auto.
  - apply Forall_forall; auto.
  - split.
    + apply (filter_orb_nil _ _ _ Htr).
    + intros E. apply (Hhow _ E). reflexivity.
Qed.

(** C3, as the code has it: with transcription disabled a segment never
    becomes active; from the idle state [segment_active] and
    [segment_has_audio] stay false through every frame, no [feed] or
    [flush] is called and no transcription line is printed. *)
Theorem disabled_sink_stays_idle ticks s :
  transcription_enabled s = false ->
  segment_active s = false ->
  segment_has_audio s = false ->
  let r := main_loop dbfs recognise ticks s in
  segment_active (vars r) = false /\
  segment_has_audio (vars r) = false /\
  filter is_sink_call (trace r) = [] /\
  filter is_transcription (trace r) = [].
Proof.
  intros Hen Hact Haud r.
  destruct (main_loop_keeps_quiet
              (fun _ => True)
              (fun s => transcription_enabled s = false /\
                        segment_active s = false /\
                        segment_has_audio s = false)
              (fun e => is_sink_call e || is_transcription e)
              (fun _ => True)) with
    (ticks := ticks) (s := s) as ((_ & Ha & Hu) & Htr & _); auto.
  - intros rd s0 _ (H0 & H1 & H2).
    destruct (body_when_disabled rd s0 H0) as ((E & A & U) & F & _); auto.
  - apply Forall_forall; auto.
  - destruct (filter_orb_nil _ _ _ Htr); auto.
Qed.

(** *** Onset: consecutive loud frames *)

Lemma body_loud_counts b s :
  loud dbfs b -> sink_ok s -> 0 <= hot s < trigger_frames - 1 ->
  exists s1 out,
    loop_body dbfs recognise (Samples b) s = (Done tt, s1, out) /\
    hot s1 = hot s + 1 /\ sink_ok s1 /\
    filter is_speech_detected out = [].
Proof.
  unfold sink_ok, trigger_frames.
  destruct s as [h ho a au en t];
    cbn [hot transcription_enabled transcriber]; intros [Hne Hlt] ok Hh.
  cbv beta iota zeta delta [loop_body].
  rewrite (length_eqb_0 b Hne), Hlt.
  split_tests; rewrite ?(int_wrap_small (h + 1)) in * by lia;
    tests_to_Z; try lia;
    try (do 2 eexists; repeat split; solve [assumption | congruence]);
    rewrite ?andb_true_iff in *;
    repeat match goal with H : _ /\ _ |- _ => destruct H end;
    subst; exfalso; apply ok; reflexivity.
Qed.

Lemma body_loud_triggers b s :
  loud dbfs b -> sink_ok s -> hot s = trigger_frames - 1 ->
  exists s1 out,
    loop_body dbfs recognise (Samples b) s = (Done tt, s1, out) /\
    hot s1 = 0 /\ hold s1 = release_frames - 1 /\
    filter is_speech_detected out = [SpeechDetected (dbfs b)].
Proof.
  unfold sink_ok, trigger_frames, release_frames.
  destruct s as [h ho a au en t];
    cbn [hot transcription_enabled transcriber]; intros [Hne Hlt] ok ->.
  cbv beta iota zeta delta [loop_body].
  rewrite (length_eqb_0 b Hne), Hlt.
  split_tests; try discriminate;
    try (do 2 eexists; repeat split; reflexivity);
    rewrite ?andb_true_iff in *;
    repeat match goal with H : _ /\ _ |- _ => destruct H end;
    subst; exfalso; apply ok; reflexivity.
Qed.

Lemma run_eta (r : run) : r = mkRun (how r) (vars r) (trace r).
Proof. destruct r; reflexivity. Qed.

Lemma frames_app l1 l2 : frames (l1 ++ l2) = frames l1 ++ frames l2.
Proof. apply map_app. Qed.

Lemma loud_frames_count bufs :
  forall s,
    Forall (loud dbfs) bufs -> sink_ok s -> 0 <= hot s ->
    hot s + Z.of_nat (List.length bufs) <= trigger_frames - 1 ->
    let r := main_loop dbfs recognise (frames bufs) s in
    how r = Running /\
    hot (vars r) = hot s + Z.of_nat (List.length bufs) /\
    sink_ok (vars r) /\
    filter is_speech_detected (trace r) = [].
Proof.
  induction bufs as [|b bufs IH]; intros s Hl ok H0 Hk.
  - simpl. repeat split; auto. lia.
  - inversion Hl as [|? ? Hb Hrest]; subst.
    cbn [List.length] in Hk. rewrite Nat2Z.inj_succ in Hk.
    destruct (body_loud_counts b s Hb ok) as (s1 & out & E & Hh & ok1 & Hout);
      [lia|].
    cbn [frames map]. fold (frames bufs).
    rewrite (main_loop_frame _ _ _ _ _ E). cbn [how vars trace].
    destruct (IH s1 Hrest ok1) as (R & H1 & ok2 & Htr); [lia | lia |].
    rewrite filter_app, Hout, Htr, H1, Hh.
    cbn [List.length]. rewrite Nat2Z.inj_succ.
    repeat split; auto. lia.
Qed.

(** C2, as the code has it: from [hot = 0], nine loud frames announce
    nothing and the tenth announces speech at its own level; once that
    frame is processed [hot] is 0 again and [hold], set to
    [release_frames] and decremented in the same pass, is 19. *)
Theorem tenth_loud_frame_triggers s bufs b10 :
  hot s = 0 -> sink_ok s ->
  List.length bufs = 9%nat -> Forall (loud dbfs) bufs -> loud dbfs b10 ->
  let before := main_loop dbfs recognise (frames bufs) s in
  let r := main_loop dbfs recognise (frames (bufs ++ [b10])) s in
  filter is_speech_detected (trace before) = [] /\
  how r = Running /\
  filter is_speech_detected (trace r) = [SpeechDetected (dbfs b10)] /\
  hot (vars r) = 0 /\
  hold (vars r) = release_frames - 1.
Proof.
  intros Hh ok Hlen Hl Hb before r.
  destruct (loud_frames_count bufs s Hl ok) as (R & H9 & ok9 & Htr).
  { lia. }
  { rewrite Hh, Hlen. unfold trigger_frames. lia. }
  fold before in R, H9, ok9, Htr.
  destruct (body_loud_triggers b10 (vars before) Hb ok9)
    as (s1 & out & E & Hhot & Hhold & Hout).
  { rewrite H9, Hh, Hlen. reflexivity. }
  assert (Er : r = mkRun Running s1 (trace before ++ out)).
  { unfold r. rewrite frames_app.
    rewrite (main_loop_app _ _ s (vars before) (trace before)).
    - cbn [frames map].
      rewrite (main_loop_frame _ _ _ _ _ E), main_loop_nil.
      cbn [how vars trace]. rewrite app_nil_r. reflexivity.
    - rewrite <- R. apply run_eta. }
  rewrite Er. cbn [how vars trace].
  rewrite filter_app, Htr, Hout. auto.
Qed.

(** *** Release: quiet frames after an announcement *)

(** What the frame that announces speech leaves behind. *)
Lemma speech_detected_inv rd s s1 out lvl :
  transcription_enabled s = true ->
  loop_body dbfs recognise rd s = (Done tt, s1, out) ->
  In (SpeechDetected lvl) out ->
  hold s1 = release_frames - 1 /\ segment_open s1.
Proof.
  unfold segment_open, release_frames.
  destruct s as [h ho a au en t]; cbn [transcription_enabled]; intros ->.
  destruct rd as [what|b]; [discriminate|].
  split_tests; intros E; try discriminate E; injection E as <- <-; simpl;
    intros Hin; repeat (destruct Hin as [Hin|Hin]; try discriminate);
    try contradiction; repeat split; congruence.
Qed.

Lemma body_quiet_open b s :
  quiet dbfs b -> segment_open s -> 2 <= hold s <= release_frames ->
  exists s1 out,
    loop_body dbfs recognise (Samples b) s = (Done tt, s1, out) /\
    hold s1 = hold s - 1 /\ segment_open s1 /\
    filter (fun e => is_flush e || is_transcription e) out = [].
Proof.
  unfold segment_open, release_frames.
  destruct s as [h ho a au en [t|]];
    cbn [hold transcription_enabled transcriber segment_active segment_has_audio];
    intros [Hne Hq] (-> & Ht & -> & ->) Hh; [|congruence].
  cbv beta iota zeta delta [loop_body].
  rewrite (length_eqb_0 b Hne), (SFleb_not_ltb _ _ Hq).
  split_tests; rewrite ?(int_wrap_small (ho - 1)) in * by lia;
    tests_to_Z; try lia; try discriminate;
    do 2 eexists; repeat split; congruence.
Qed.

Lemma body_quiet_closes b s :
  quiet dbfs b -> segment_open s -> hold s = 1 ->
  exists s1 out,
    loop_body dbfs recognise (Samples b) s = (Done tt, s1, out) /\
    segment_closed s1 /\
    filter is_flush out = [Flush] /\
    List.length (filter is_transcription out) = 1%nat.
Proof.
  unfold segment_open, segment_closed.
  destruct s as [h ho a au en [t|]];
    cbn [hold transcription_enabled transcriber segment_active segment_has_audio];
    intros [Hne Hq] (-> & Ht & -> & ->) ->; [|congruence].
  cbv beta iota zeta delta [loop_body].
  rewrite (length_eqb_0 b Hne), (SFleb_not_ltb _ _ Hq).
  split_tests; try discriminate; do 2 eexists; repeat split; reflexivity.
Qed.

Lemma body_quiet_closed rd s :
  quiet_or_empty dbfs rd -> segment_closed s ->
  segment_closed (snd (fst (loop_body dbfs recognise rd s))) /\
  filter (fun e => is_flush e || is_transcription e)
         (snd (loop_body dbfs recognise rd s)) = [] /\
  (forall e, fst (fst (loop_body dbfs recognise rd s)) = Stop e -> True).
Proof.
  unfold segment_closed.
  destruct s as [h ho a au en t]; cbn [hold segment_active]; intros Hq [-> ->].
  destruct rd as [what|[|x b]]; [repeat split; reflexivity ..|].
  assert (Hlt : SFltb trigger_dbfs (dbfs (x :: b)) = false)
    by (apply SFleb_not_ltb, Hq; discriminate).
  cbv beta iota zeta delta [loop_body]. rewrite Hlt.
  split_tests; try discriminate; repeat split; reflexivity.
Qed.

Lemma quiet_frames_keep_open qs :
  forall s,
    Forall (quiet dbfs) qs -> segment_open s ->
    hold s <= release_frames ->
    Z.of_nat (List.length qs) + 1 <= hold s ->
    let r := main_loop dbfs recognise (frames qs) s in
    how r = Running /\
    hold (vars r) = hold s - Z.of_nat (List.length qs) /\
    segment_open (vars r) /\
    filter (fun e => is_flush e || is_transcription e) (trace r) = [].
Proof.
  induction qs as [|q qs IH]; intros s Hq Hopen Hmax Hlen.
  - simpl. repeat split; try apply Hopen. lia.
  - inversion Hq as [|? ? Hq1 Hrest]; subst.
    cbn [List.length] in Hlen |- *. rewrite Nat2Z.inj_succ in Hlen |- *.
    destruct (body_quiet_open q s Hq1 Hopen)
      as (s1 & out & E & Hh & Hopen1 & Hout); [lia|].
    cbn [frames map]. fold (frames qs).
    rewrite (main_loop_frame _ _ _ _ _ E). cbn [how vars trace].
    destruct (IH s1 Hrest Hopen1) as (R & H1 & Hopen2 & Htr); [lia | lia |].
    rewrite filter_app, Hout, Htr, H1, Hh.
    repeat split; try apply Hopen2; auto. lia.
Qed.

Lemma quiet_frames_stay_closed qs s :
  Forall (quiet dbfs) qs -> segment_closed s ->
  let r := main_loop dbfs recognise (frames qs) s in
  segment_closed (vars r) /\
  filter (fun e => is_flush e || is_transcription e) (trace r) = [].
Proof.
  intros Hq Hs r.
  destruct (main_loop_keeps_quiet
              (quiet_or_empty dbfs) segment_closed
              (fun e => is_flush e || is_transcription e) (fun _ => True))
    with (ticks := frames qs) (s := s) as (Hc & Htr & _); auto.
  - intros rd s0 Hrd Hs0. apply body_quiet_closed; assumption.
  - unfold frames. apply Forall_map.
    apply Forall_impl with (2 := Hq).
    intros b [_ Hb] _. exact Hb.
Qed.

(** C1, as the code has it: once a frame has announced speech with
    transcription on, [hold] stands at 19; through up to 18 quiet frames
    that follow the segment stays active and nothing is flushed; the 19th
    quiet frame closes the segment with one flush and one transcription
    line, and later quiet frames leave it closed. *)
Theorem release_window_after_detection rd s s1 out lvl qs :
  transcription_enabled s = true ->
  loop_body dbfs recognise rd s = (Done tt, s1, out) ->
  In (SpeechDetected lvl) out ->
  Forall (quiet dbfs) qs ->
  let r := main_loop dbfs recognise (frames qs) s1 in
  (Z.of_nat (List.length qs) < release_frames - 1 ->
   segment_active (vars r) = true /\
   filter is_flush (trace r) = [] /\
   filter is_transcription (trace r) = []) /\
  (release_frames - 1 <= Z.of_nat (List.length qs) ->
   segment_active (vars r) = false /\
   filter is_flush (trace r) = [Flush] /\
   List.length (filter is_transcription (trace r)) = 1%nat).
Proof.
  intros Hen E Hin Hq r.
  destruct (speech_detected_inv rd s s1 out lvl Hen E Hin) as [Hhold Hopen].
  unfold release_frames in *. split; intros Hlen.
  - destruct (quiet_frames_keep_open qs s1 Hq Hopen)
      as (_ & _ & Hopen1 & Htr); [unfold release_frames; lia | lia |].
    destruct (filter_orb_nil _ _ _ Htr).
    repeat split; auto. apply Hopen1.
  - assert (Hsplit : exists pre q post,
               qs = pre ++ q :: post /\ List.length pre = 18%nat).
    { exists (firstn 18 qs).
      destruct (skipn 18 qs) as [|q post] eqn:Es.
      - apply (f_equal (@List.length frame)) in Es.
        rewrite length_skipn in Es. simpl in Es. lia.
      - exists q, post. split.
        + rewrite <- Es. symmetry. apply firstn_skipn.
        + apply firstn_length_le. lia. }
    destruct Hsplit as (pre & q & post & -> & Hpre).
    apply Forall_app in Hq. destruct Hq as [Hq_pre Hq_rest].
    inversion Hq_rest as [|? ? Hq19 Hq_post]; subst.
    destruct (quiet_frames_keep_open pre s1 Hq_pre Hopen)
      as (R & H1 & Hopen1 & Htr1); [unfold release_frames; lia | lia |].
    set (r1 := main_loop dbfs recognise (frames pre) s1) in *.
    destruct (body_quiet_closes q (vars r1) Hq19 Hopen1)
      as (s2 & out2 & E2 & Hclosed & Hfl & Htx); [lia|].
    destruct (quiet_frames_stay_closed post s2 Hq_post Hclosed)
      as (Hclosed3 & Htr3).
    set (r3 := main_loop dbfs recognise (frames post) s2) in *.
    assert (Er : r = mkRun (how r3) (vars r3)
                           (trace r1 ++ out2 ++ trace r3)).
    { unfold r. rewrite frames_app.
      rewrite (main_loop_app _ _ s1 (vars r1) (trace r1))
        by (rewrite <- R; apply run_eta).
      cbn [frames map]. fold (frames post).
      rewrite (main_loop_frame _ _ _ _ _ E2). reflexivity. }
    rewrite Er. cbn [how vars trace].
    destruct (filter_orb_nil _ _ _ Htr1) as [F1 T1].
    destruct (filter_orb_nil _ _ _ Htr3) as [F3 T3].
    rewrite !filter_app, F1, T1, F3, T3, Hfl, !app_nil_r.
    repeat split; auto. apply Hclosed3.
Qed.

End Properties.

(** * The properties at work on sample sessions *)

Lemma full_scale_loud : loud sample_dbfs full_scale.
Proof. split; [discriminate | reflexivity]. Qed.

Lemma silence_quiet : quiet sample_dbfs silence.
Proof. split; [discriminate | reflexivity]. Qed.

Lemma Forall_repeat_same {A} (P : A -> Prop) (x : A) (n : nat) :
  P x -> Forall P (repeat x n).
Proof. intros H. induction n; simpl; constructor; auto. Qed.

(** Ten full-scale frames, then quiet ones: the segment is closed by the
    19th quiet frame, not kept until the 20th. *)
Lemma release_window_nineteen :
  loop_body sample_dbfs sample_text (Samples full_scale) nine_loud =
    (Done tt, armed, [SpeechDetected (S754_zero false); Feed full_scale]) /\
  Forall (quiet sample_dbfs) (repeat silence 19) /\
  segment_active
    (vars (main_loop sample_dbfs sample_text (frames (repeat silence 18)) armed))
    = true /\
  segment_active
    (vars (main_loop sample_dbfs sample_text (frames (repeat silence 19)) armed))
    = false.
Proof.
  split; [vm_compute; reflexivity|].
  split; [apply Forall_repeat_same, silence_quiet|].
  split; vm_compute; reflexivity.
Qed.

Lemma release_window_sample :
  let r := main_loop sample_dbfs sample_text (frames (repeat silence 19)) armed in
  segment_active (vars r) = false /\
  filter is_flush (trace r) = [Flush] /\
  List.length (filter is_transcription (trace r)) = 1%nat.
Proof.
  refine (proj2 (release_window_after_detection
                   sample_dbfs sample_text (Samples full_scale) nine_loud armed
                   [SpeechDetected (S754_zero false); Feed full_scale]
                   (S754_zero false) (repeat silence 19) _ _ _ _) _).
  - reflexivity.
  - vm_compute; reflexivity.
  - left; reflexivity.
  - apply Forall_repeat_same, silence_quiet.
  - vm_compute; discriminate.
Defined.

(** After the tenth loud frame [hold] is 19, not [release_frames]. *)
Lemma hold_after_trigger_is_nineteen :
  let r := main_loop sample_dbfs sample_text
             (frames (repeat full_scale 10)) (initial Ctor_ok) in
  hot (initial Ctor_ok) = 0 /\
  Forall (loud sample_dbfs) (repeat full_scale 10) /\
  filter is_speech_detected (trace r) = [SpeechDetected (S754_zero false)] /\
  hold (vars r) = 19 /\
  hold (vars r) <> release_frames.
Proof.
  split; [reflexivity|].
  split; [apply Forall_repeat_same, full_scale_loud|].
  split; [vm_compute; reflexivity|].
  split; [vm_compute; reflexivity | vm_compute; discriminate].
Qed.

Lemma tenth_loud_frame_sample :
  let before := main_loop sample_dbfs sample_text
                  (frames (repeat full_scale 9)) (initial Ctor_ok) in
  let r := main_loop sample_dbfs sample_text
             (frames (repeat full_scale 9 ++ [full_scale])) (initial Ctor_ok) in
  filter is_speech_detected (trace before) = [] /\
  how r = Running /\
  filter is_speech_detected (trace r) = [SpeechDetected (sample_dbfs full_scale)] /\
  hot (vars r) = 0 /\
  hold (vars r) = release_frames - 1.
Proof.
  apply (tenth_loud_frame_triggers sample_dbfs sample_text
           (initial Ctor_ok) (repeat full_scale 9) full_scale).
  - reflexivity.
  - discriminate.
  - reflexivity.
  - apply Forall_repeat_same, full_scale_loud.
  - exact full_scale_loud.
Defined.

(** With transcription disabled, ten loud frames arm [hold] and the segment
    is still not active. *)
Lemma disabled_sink_not_active :
  let s := initial (Ctor_throws no_engine) in
  let r := main_loop sample_dbfs sample_text (frames (repeat full_scale 10)) s in
  transcription_enabled s = false /\
  SFltb trigger_dbfs (sample_dbfs full_scale) = true /\
  hold (vars r) = 19 /\
  segment_active (vars r) = false.
Proof. repeat split; vm_compute; reflexivity. Qed.

Lemma disabled_sink_sample :
  let r := main_loop sample_dbfs sample_text
             (frames (repeat full_scale 10 ++ repeat silence 20))
             (initial (Ctor_throws no_engine)) in
  segment_active (vars r) = false /\
  segment_has_audio (vars r) = false /\
  filter is_sink_call (trace r) = [] /\
  filter is_transcription (trace r) = [].
Proof.
  apply (disabled_sink_stays_idle sample_dbfs sample_text
           (frames (repeat full_scale 10 ++ repeat silence 20))
           (initial (Ctor_throws no_engine))); reflexivity.
Defined.

(** A read that throws between two loud frames: the run is over, and the
    frame after it is never counted. *)
Lemma read_failure_is_fatal :
  let ticks := [mkTick true (Samples full_scale);
                mkTick true (Read_throws failed_read);
                mkTick true (Samples full_scale)] in
  let r := main_loop sample_dbfs sample_text ticks (initial Ctor_ok) in
  how r = Aborted (Uncaught failed_read) /\
  how r <> Running /\
  hot (vars r) = 1 /\
  hot (vars (main_loop sample_dbfs sample_text
               (frames [full_scale; full_scale]) (initial Ctor_ok))) = 2.
Proof.
  split; [vm_compute; reflexivity|].
  split; [vm_compute; discriminate|].
  split; vm_compute; reflexivity.
Qed.

Lemma read_failure_sample :
  let r := main_loop sample_dbfs sample_text (frames [full_scale]) (initial Ctor_ok) in
  how r = Running /\
  main_loop sample_dbfs sample_text
    (frames [full_scale] ++
     mkTick true (Read_throws failed_read) :: frames [full_scale])
    (initial Ctor_ok) =
  mkRun (Aborted (Uncaught failed_read)) (vars r) (trace r).
Proof.
  split; [reflexivity|].
  apply (read_failure_ends_session sample_dbfs sample_text
           (frames [full_scale]) (initial Ctor_ok)).
  vm_compute; reflexivity.
Defined.

Lemma quiet_run_sample :
  let ticks := frames [silence; silence] ++
               [mkTick true (Samples []); mkTick true (Samples silence)] in
  let r := main_loop sample_dbfs sample_text (firstn 3 ticks) (initial Ctor_ok) in
  hot (vars r) = 0 /\ filter is_speech_detected (trace r) = [].
Proof.
  apply (quiet_run_never_triggers sample_dbfs sample_text
           (frames [silence; silence] ++
            [mkTick true (Samples []); mkTick true (Samples silence)])
           (initial Ctor_ok) 3).
  - reflexivity.
  - cbn [frames map app].
    repeat (constructor; [cbn [capture_read quiet_or_empty]; intros _; reflexivity|]).
    constructor.
Defined.

(** SIGINT while a segment is open: the loop is left with the segment still
    active and nothing flushed. *)
Lemma shutdown_sample :
  let r := main_loop sample_dbfs sample_text
             (frames (repeat full_scale 10)) (initial Ctor_ok) in
  segment_active (vars r) = true /\
  filter is_flush (trace r) = [] /\
  main_loop sample_dbfs sample_text
    (frames (repeat full_scale 10) ++ mkTick false (Samples []) :: [])
    (initial Ctor_ok) =
  mkRun (Exited 0) (vars r) (trace r).
Proof.
  split; [vm_compute; reflexivity|].
  split; [vm_compute; reflexivity|].
  apply (shutdown_abandons_segment sample_dbfs sample_text
           (frames (repeat full_scale 10)) (initial Ctor_ok)).
  vm_compute; reflexivity.
Defined.

(** The constructor threw: the pointer is null and is never used. *)
Lemma null_transcriber_sample :
  let s := initial (Ctor_throws no_engine) in
  let r := main_loop sample_dbfs sample_text
             (frames (repeat full_scale 10 ++ repeat silence 20)) s in
  transcriber s = None /\
  filter is_sink_call (trace r) = [] /\
  how r <> Aborted Null_dereference.
Proof.
  split; [reflexivity|].
  apply (disabled_sink_never_called sample_dbfs sample_text
           (frames (repeat full_scale 10 ++ repeat silence 20))
           (initial (Ctor_throws no_engine))).
  reflexivity.
Defined.

(** * Further properties of the driver loop *)

Lemma since_flush_app tr1 : forall acc tr2,
  since_flush acc (tr1 ++ tr2) = since_flush (since_flush acc tr1) tr2.
Proof.
  induction tr1 as [|e tr1 IH]; intros acc tr2; [reflexivity|].
  destruct e; simpl; apply IH.
Qed.

Lemma flushed_segments_app tr1 : forall acc tr2,
  flushed_segments acc (tr1 ++ tr2) =
  flushed_segments acc tr1 ++ flushed_segments (since_flush acc tr1) tr2.
Proof.
  induction tr1 as [|e tr1 IH]; intros acc tr2; [reflexivity|].
  destruct e; simpl; rewrite ?IH; reflexivity.
Qed.

Lemma printed_app tr1 tr2 : printed (tr1 ++ tr2) = printed tr1 ++ printed tr2.
Proof. apply flat_map_app. Qed.

Lemma fed_app tr1 tr2 : fed (tr1 ++ tr2) = fed tr1 ++ fed tr2.
Proof. apply flat_map_app. Qed.

Lemma announced_app tr1 tr2 : announced (tr1 ++ tr2) = announced tr1 ++ announced tr2.
Proof. apply flat_map_app. Qed.

Lemma filter_none {A} (l : list A) : filter (fun _ => false) l = [].
Proof. induction l; auto. Qed.

Lemma length_0_empty (t : string) : (String.length t =? 0)%nat = true -> t = EmptyString.
Proof. destruct t; [reflexivity | discriminate]. Qed.

Section Sessions.

Variable dbfs : frame -> spec_float.
Variable recognise : list frame -> string.

(** A relation between where a stretch of the loop starts, what it prints
    and where it stops, that holds of no pass at all, of every pass of the
    body, and of two stretches in a row, holds of every run. *)
Lemma main_loop_relates
      (P : locals -> Prop) (R : locals -> list event -> locals -> Prop) :
  (forall s, R s [] s) ->
  (forall s tr1 s1 tr2 s2, R s tr1 s1 -> R s1 tr2 s2 -> R s (tr1 ++ tr2) s2) ->
  (forall rd s, P s ->
     P (snd (fst (loop_body dbfs recognise rd s))) /\
     R s (snd (loop_body dbfs recognise rd s))
         (snd (fst (loop_body dbfs recognise rd s)))) ->
  forall ticks s, P s ->
    P (vars (main_loop dbfs recognise ticks s)) /\
    R s (trace (main_loop dbfs recognise ticks s))
        (vars (main_loop dbfs recognise ticks s)).
Proof.
  intros Rnil Rapp step.
  induction ticks as [|t rest IH]; intros s Hs; simpl; [auto|].
  destruct (g_running t); [|simpl; auto].
  destruct (step (capture_read t) s Hs) as [P1 R1].
  destruct (loop_body dbfs recognise (capture_read t) s) as [[[[]|e] s1] out1];
    simpl in P1, R1 |- *; [|auto].
  destruct (IH s1 P1) as [P2 R2]. split; [exact P2|].
  apply Rapp with s1; assumption.
Qed.

(** *** The transcriber pointer *)

Lemma body_keeps_sink_ok rd s :
  sink_ok s ->
  sink_ok (snd (fst (loop_body dbfs recognise rd s))) /\
  (forall e, fst (fst (loop_body dbfs recognise rd s)) = Stop e ->
             e <> Null_dereference).
Proof.
  unfold sink_ok.
  destruct s as [h ho a au en t]; cbn [transcription_enabled transcriber].
  intros ok. destruct rd as [what|b]; [cbn; repeat split; auto; congruence|].
  split_tests; cbn; repeat split; auto; try congruence;
    rewrite ?andb_true_iff in *;
    repeat match goal with H : _ /\ _ |- _ => destruct H end;
    subst; exfalso; apply ok; reflexivity.
Qed.

Lemma initial_sink_ok c : sink_ok (initial c).
Proof. destruct c; cbv; congruence. Qed.

(** X1: No session calls through a null [transcriber]: whether the constructor
    returned or threw, the loop stops only on its flag or on a read that
    throws. *)
Theorem session_never_dereferences_null c ticks :
  how (main_loop dbfs recognise ticks (initial c)) <> Aborted Null_dereference.
Proof.
  destruct (main_loop_keeps_quiet dbfs recognise
              (fun _ => True) sink_ok (fun _ => false)
              (fun e => e <> Null_dereference)) with
    (ticks := ticks) (s := initial c) as (_ & _ & Hhow).
  - intros rd s _ Hs.
    destruct (body_keeps_sink_ok rd s Hs) as (H1 & H3).
    repeat split; auto. apply filter_none.
  - apply Forall_forall; auto.
  - apply initial_sink_ok.
  - intros E. apply (Hhow _ E). reflexivity.
Qed.

(** *** The two segment flags *)

Lemma body_keeps_flags rd s :
  flags_agree s -> flags_agree (snd (fst (loop_body dbfs recognise rd s))).
Proof.
  unfold flags_agree, sink_ok.
  destruct s as [h ho a au en t];
    cbn [transcription_enabled transcriber segment_has_audio segment_active].
  intros [ok ->]. destruct rd as [what|b]; [cbn; auto|].
  split_tests; cbn; split; auto; try congruence;
    rewrite ?andb_true_iff, ?andb_false_iff in *;
    repeat match goal with H : _ /\ _ |- _ => destruct H end;
    subst; try discriminate;
    try (exfalso; apply ok; reflexivity);
    repeat match goal with H : _ \/ _ |- _ => destruct H end;
    congruence.
Qed.

(** X2: At every frame boundary of a session [segment_has_audio] equals
    [segment_active]: the two flags are set together and cleared together. *)
Theorem segment_flags_always_agree c ticks :
  let s := vars (main_loop dbfs recognise ticks (initial c)) in
  segment_has_audio s = segment_active s.
Proof.
  intros s.
  assert (H : flags_agree s).
  { apply main_loop_keeps; [apply body_keeps_flags|].
    split; [apply initial_sink_ok | destruct c; reflexivity]. }
  apply H.
Qed.

(** *** The audio given to the engine *)

Lemma body_accounts_audio rd s :
  engine_ready s ->
  engine_ready (snd (fst (loop_body dbfs recognise rd s))) /\
  audio_accounted recognise s (snd (loop_body dbfs recognise rd s))
                  (snd (fst (loop_body dbfs recognise rd s))).
Proof.
  unfold engine_ready, audio_accounted, pending.
  destruct s as [h ho a au en [[rdy acc]|]]; cbn [transcriber ready accepted];
    [intros -> | contradiction].
  destruct rd as [what|b]; [cbn; auto|].
  split_tests; unfold flush, feed in *; cbn [ready accepted] in *;
    repeat match goal with
      | H : (_, _) = (_, _) |- _ => injection H as <- <-
      | H : Some _ = Some _ |- _ => injection H as <-
      | H : (String.length _ =? 0)%nat = true |- _ =>
          apply length_0_empty in H
      end;
    cbn; rewrite ?app_nil_r; auto; try discriminate.
  all: repeat split; auto; congruence.
Qed.

(** X4: In a session whose transcriber was constructed, the recognizer holds at
    every moment exactly the frames fed since the last flush, and the
    transcription lines are, in order, the engine's texts for the frames
    fed between one flush and the next: no frame is lost or heard twice. *)
Theorem every_line_is_its_segment ticks :
  let r := main_loop dbfs recognise ticks (initial Ctor_ok) in
  pending (vars r) = since_flush [] (trace r) /\
  printed (trace r) = map recognise (flushed_segments [] (trace r)).
Proof.
  intros r.
  destruct (main_loop_relates engine_ready
              (audio_accounted recognise)) with
    (ticks := ticks) (s := initial Ctor_ok) as [_ H].
  - intros s. split; reflexivity.
  - intros s tr1 s1 tr2 s2 [A1 B1] [A2 B2]. split.
    + rewrite since_flush_app, <- A1. exact A2.
    + rewrite printed_app, flushed_segments_app, map_app, B1, <- A1, B2.
      reflexivity.
  - apply body_accounts_audio.
  - reflexivity.
  - exact H.
Qed.

Lemma body_keeps_drained rd s :
  drained_when_idle s ->
  drained_when_idle (snd (fst (loop_body dbfs recognise rd s))).
Proof.
  unfold drained_when_idle, engine_ready, pending.
  destruct s as [h ho a au en [[rdy acc]|]];
    cbn [transcriber ready accepted transcription_enabled
         segment_has_audio segment_active];
    [intros (-> & -> & -> & Hidle) | intros ([] & _)].
  destruct rd as [what|b]; [cbn; auto|].
  split_tests; unfold flush, feed in *; cbn [ready accepted] in *;
    repeat match goal with
      | H : (_, _) = (_, _) |- _ => injection H as <- <-
      | H : Some _ = Some _ |- _ => injection H as <-
      end;
    cbn; repeat split; auto; try discriminate; try congruence.
Qed.

(** X3: In a session whose transcriber was constructed, whenever the segment is
    not active the recognizer holds no audio: what a segment fed was
    flushed when it closed. *)
Theorem idle_recognizer_is_empty ticks :
  let s := vars (main_loop dbfs recognise ticks (initial Ctor_ok)) in
  segment_active s = false -> pending s = [].
Proof.
  intros s.
  assert (H : drained_when_idle s).
  { apply main_loop_keeps; [apply body_keeps_drained|].
    repeat split; reflexivity. }
  apply H.
Qed.

(** *** Announcements *)

Lemma body_announces_loud rd s :
  Forall (fun l => SFltb trigger_dbfs l = true)
         (announced (snd (loop_body dbfs recognise rd s))).
Proof.
  destruct s as [h ho a au en t].
  destruct rd as [what|b]; [constructor|].
  split_tests; unfold announced; cbn; repeat constructor; assumption.
Qed.

(** X5: Every level handed to the line that announces speech, from any
    state and over any reads, is as a [float] value strictly above the
    trigger level [-35.0f].  (How the stream writes that value, with six
    significant digits, is not part of the model: a level just above the
    trigger can read "-35".) *)
Theorem announced_levels_exceed_trigger ticks s :
  Forall (fun l => SFltb trigger_dbfs l = true)
         (announced (trace (main_loop dbfs recognise ticks s))).
Proof.
  destruct (main_loop_relates (fun _ => True)
              (fun _ tr _ => Forall (fun l => SFltb trigger_dbfs l = true)
                                    (announced tr))) with
    (ticks := ticks) (s := s) as [_ H].
  - intros; constructor.
  - intros ? tr1 ? tr2 ? H1 H2. rewrite announced_app.
    apply Forall_app; auto.
  - intros rd s0 _. split; [exact I | apply body_announces_loud].
  - exact I.
  - exact H.
Qed.

(** One loud frame, whatever the counters below the wrap. *)
Lemma body_loud_frame b s :
  loud dbfs b -> sink_ok s -> 0 <= hot s <= trigger_frames - 1 ->
  exists s1 out,
    loop_body dbfs recognise (Samples b) s = (Done tt, s1, out) /\
    sink_ok s1 /\
    transcription_enabled s1 = transcription_enabled s /\
    hot s1 = (hot s + 1) mod trigger_frames /\
    announced out = (if hot s =? trigger_frames - 1 then [dbfs b] else []) /\
    fed out = (if transcription_enabled s then [b] else []) /\
    filter is_flush out = [] /\
    segment_active s1 = transcription_enabled s || segment_active s.
Proof.
  unfold sink_ok, trigger_frames.
  destruct s as [h ho a au en t];
    cbn [hot transcription_enabled transcriber segment_active];
    intros [Hne Hlt] ok Hh.
  cbv beta iota zeta delta [loop_body].
  rewrite (length_eqb_0 b Hne), Hlt.
  destruct (Z.eqb_spec h (10 - 1)) as [->|Hneq].
  - split_tests; try discriminate;
      rewrite ?andb_true_iff, ?andb_false_iff in *;
      repeat match goal with H : _ /\ _ |- _ => destruct H end;
      subst; try (exfalso; apply ok; reflexivity);
      try (do 2 eexists; repeat split;
           solve [reflexivity | congruence
                 | destruct a; reflexivity
                 | destruct en; destruct a; intuition congruence]).
  - split_tests; rewrite ?(int_wrap_small (h + 1)) in * by lia;
      tests_to_Z; try lia;
      rewrite ?andb_true_iff, ?andb_false_iff in *;
      repeat match goal with H : _ /\ _ |- _ => destruct H end;
      subst; try (exfalso; apply ok; reflexivity);
      try (do 2 eexists; repeat split;
           solve [reflexivity | congruence
                 | rewrite Z.mod_small; lia
                 | destruct a; reflexivity
                 | destruct en; destruct a; intuition congruence]).
Qed.

(** X6: Through a stretch of loud frames speech is announced on every tenth
    one: starting with [hot s] loud frames already counted, after [n] more
    the count stands at [(hot s + n) mod 10] and [(hot s + n) / 10]
    announcements were made. *)
Theorem detection_every_tenth_loud_frame bufs :
  forall s,
    sink_ok s -> 0 <= hot s <= trigger_frames - 1 ->
    Forall (loud dbfs) bufs ->
    let r := main_loop dbfs recognise (frames bufs) s in
    how r = Running /\
    hot (vars r) = (hot s + Z.of_nat (List.length bufs)) mod trigger_frames /\
    Z.of_nat (List.length (announced (trace r))) =
      (hot s + Z.of_nat (List.length bufs)) / trigger_frames.
Proof.
  induction bufs as [|b bufs IH]; intros s ok Hh Hl.
  - unfold trigger_frames in *. cbn [frames map main_loop how vars trace].
    cbn [announced flat_map List.length Z.of_nat].
    rewrite Z.add_0_r, Z.mod_small, Z.div_small by lia. auto.
  - inversion Hl as [|? ? Hb Hrest]; subst.
    destruct (body_loud_frame b s Hb ok Hh)
      as (s1 & out & E & ok1 & _ & Hhot & Hann & _).
    assert (Hh1 : 0 <= hot s1 <= trigger_frames - 1).
    { rewrite Hhot. unfold trigger_frames.
      pose proof (Z.mod_pos_bound (hot s + 1) 10). lia. }
    destruct (IH s1 ok1 Hh1 Hrest) as (R & H1 & H2).
    cbn [frames map]. fold (frames bufs).
    rewrite (main_loop_frame _ _ _ _ _ _ _ E). cbn [how vars trace].
    rewrite announced_app, length_app, Nat2Z.inj_add, H1, H2, Hann.
    cbn [List.length]. rewrite Nat2Z.inj_succ.
    unfold trigger_frames in *.
    split; [exact R|].
    destruct (Z.eqb_spec (hot s) (10 - 1)) as [E9|N9].
    + rewrite Hhot, E9. cbn [List.length Z.of_nat].
      change ((10 - 1 + 1) mod 10) with 0.
      replace (10 - 1 + Z.succ (Z.of_nat (List.length bufs)))
        with (0 + Z.of_nat (List.length bufs) + 1 * 10) by lia.
      rewrite Z.mod_add, Z.div_add by lia.
      split; [reflexivity | lia].
    + rewrite Hhot, (Z.mod_small (hot s + 1)) by lia.
      cbn [List.length Z.of_nat].
      replace (hot s + 1 + Z.of_nat (List.length bufs))
        with (hot s + Z.succ (Z.of_nat (List.length bufs))) by lia.
      split; [reflexivity | lia].
Qed.

(** *** What is fed *)

Lemma body_loud_fed b s :
  loud dbfs b -> sink_ok s -> transcription_enabled s = true ->
  exists s1 out,
    loop_body dbfs recognise (Samples b) s = (Done tt, s1, out) /\
    sink_ok s1 /\ transcription_enabled s1 = true /\
    segment_active s1 = true /\
    fed out = [b] /\ filter is_flush out = [].
Proof.
  unfold sink_ok.
  destruct s as [h ho a au en [t|]];
    cbn [transcription_enabled transcriber]; intros [Hne Hlt] ok ->;
    [|exfalso; apply ok; reflexivity].
  cbv beta iota zeta delta [loop_body].
  rewrite (length_eqb_0 b Hne), Hlt.
  split_tests; try discriminate;
    do 2 eexists; repeat split; solve [reflexivity | congruence].
Qed.

(** X7: With transcription on, a stretch of loud frames is fed to the engine
    whole and in order, nothing is flushed during it, and the segment is
    active at its end: the debounce of the announcement does not hold back
    any audio. *)
Theorem loud_frames_fed_uncut bufs :
  forall s,
    sink_ok s -> transcription_enabled s = true ->
    Forall (loud dbfs) bufs ->
    let r := main_loop dbfs recognise (frames bufs) s in
    how r = Running /\
    fed (trace r) = bufs /\
    filter is_flush (trace r) = [] /\
    (bufs <> [] -> segment_active (vars r) = true).
Proof.
  induction bufs as [|b bufs IH]; intros s ok Hen Hl.
  - cbn. repeat split; congruence.
  - inversion Hl as [|? ? Hb Hrest]; subst.
    destruct (body_loud_fed b s Hb ok Hen)
      as (s1 & out & E & ok1 & Hen1 & Hact & Hfed & Hfl).
    destruct (IH s1 ok1 Hen1 Hrest) as (R & F & N & A).
    cbn [frames map]. fold (frames bufs).
    rewrite (main_loop_frame _ _ _ _ _ _ _ E). cbn [how vars trace].
    rewrite fed_app, filter_app, Hfed, Hfl, F, N.
    repeat split; auto. intros _.
    destruct bufs as [|b' bufs']; [exact Hact | apply A; discriminate].
Qed.

(** X8: A single loud frame, too short to be announced, opens a segment and is
    fed; with the release counter at zero the next quiet frame closes the
    segment, flushes, and prints one line for a recognizer that heard just
    that frame on top of what it held. *)
Theorem one_loud_frame_is_transcribed b q s :
  loud dbfs b -> quiet dbfs q ->
  engine_ready s -> transcription_enabled s = true ->
  hold s = 0 -> 0 <= hot s < trigger_frames - 1 ->
  let r := main_loop dbfs recognise (frames [b; q]) s in
  let text := recognise (pending s ++ [b]) in
  how r = Running /\
  segment_active (vars r) = false /\
  pending (vars r) = [] /\
  trace r = [Feed b; Flush;
             if (String.length text =? 0)%nat then NoSpeechRecognised
             else TranscriptionResult text].
Proof.
  unfold engine_ready, pending, trigger_frames.
  destruct s as [h ho a au en [[rdy acc]|]];
    cbn [transcriber ready accepted transcription_enabled hold hot];
    intros [Hb Hlb] [Hq Hlq] Hr Hen Hho Hh; [subst|contradiction].
  apply SFleb_not_ltb in Hlq.
  cbn [frames map main_loop g_running capture_read].
  cbv beta iota zeta delta [loop_body].
  rewrite (length_eqb_0 b Hb), (length_eqb_0 q Hq), Hlb, Hlq.
  split_tests; rewrite ?(int_wrap_small (h + 1)) in * by lia;
    tests_to_Z; try lia; try discriminate;
    unfold flush, feed in *; cbn [ready accepted] in *;
    repeat match goal with
      | H : (_, _) = (_, _) |- _ => injection H as <- <-
      | H : Some _ = Some _ |- _ => injection H as <-
      end;
    try discriminate; try congruence;
    cbn; repeat split; auto;
    fold (acc ++ [b]) in *; congruence.
Qed.

(** *** The release counter between announcements *)

Lemma body_quiet_counts_down b s :
  quiet dbfs b -> sink_ok s -> 0 <= hold s <= release_frames ->
  exists s1 out,
    loop_body dbfs recognise (Samples b) s = (Done tt, s1, out) /\
    sink_ok s1 /\ hold s1 = Z.max 0 (hold s - 1).
Proof.
  unfold sink_ok, release_frames.
  destruct s as [h ho a au en t];
    cbn [hold transcription_enabled transcriber]; intros [Hne Hq] ok Hh.
  cbv beta iota zeta delta [loop_body].
  rewrite (length_eqb_0 b Hne), (SFleb_not_ltb _ _ Hq).
  split_tests; rewrite ?(int_wrap_small (ho - 1)) in * by lia;
    tests_to_Z;
    rewrite ?andb_true_iff in *;
    repeat match goal with H : _ /\ _ |- _ => destruct H end;
    subst; try (exfalso; apply ok; reflexivity);
    do 2 eexists; repeat split; solve [assumption | congruence | lia].
Qed.

(** X9: Over quiet frames the release counter loses one per frame until it is
    zero and then stays zero. *)
Theorem hold_counts_down_to_zero qs :
  forall s,
    sink_ok s -> 0 <= hold s <= release_frames ->
    Forall (quiet dbfs) qs ->
    let r := main_loop dbfs recognise (frames qs) s in
    how r = Running /\
    hold (vars r) = Z.max 0 (hold s - Z.of_nat (List.length qs)).
Proof.
  induction qs as [|q qs IH]; intros s ok Hh Hq.
  - cbn. split; [reflexivity | lia].
  - inversion Hq as [|? ? Hq1 Hrest]; subst.
    destruct (body_quiet_counts_down q s Hq1 ok Hh)
      as (s1 & out & E & ok1 & Hhold).
    destruct (IH s1 ok1) as (R & H1); [lia | exact Hrest |].
    cbn [frames map]. fold (frames qs).
    rewrite (main_loop_frame _ _ _ _ _ _ _ E). cbn [how vars trace].
    cbn [List.length]. rewrite Nat2Z.inj_succ.
    split; [exact R | lia].
Qed.

End Sessions.

(** * The text field of the engine's result *)

Section TextField.

Local Open Scope string_scope.
Local Open Scope nat_scope.

Lemma append_assoc (a b c : string) : (a ++ b) ++ c = a ++ b ++ c.
Proof.
  induction a as [|x a IH]; simpl; [reflexivity | rewrite IH; reflexivity].
Qed.

Lemma length_append (a b : string) :
  String.length (a ++ b) = String.length a + String.length b.
Proof.
  induction a as [|x a IH]; simpl; [reflexivity | rewrite IH; reflexivity].
Qed.

Lemma lacks_append c a b : lacks c (a ++ b) = lacks c a && lacks c b.
Proof.
  induction a as [|x a IH]; simpl; [reflexivity|].
  rewrite IH, andb_assoc; reflexivity.
Qed.

(** Searching past a prefix is searching in what follows it. *)
Lemma index_after a : forall pat b n,
  index (String.length a + n) pat (a ++ b) =
  option_map (Nat.add (String.length a)) (index n pat b).
Proof.
  induction a as [|x a IH]; intros pat b n; simpl.
  - destruct (index n pat b); reflexivity.
  - rewrite IH. destruct (index n pat b); reflexivity.
Qed.

Lemma index_0_cons pat x s :
  index 0 pat (String x s) =
  if prefix pat (String x s) then Some 0
  else match index 0 pat s with Some n => Some (S n) | None => None end.
Proof. reflexivity. Qed.

Lemma prefix_char c x s :
  prefix (String c EmptyString) (String x s) = Ascii.eqb x c.
Proof.
  destruct (Ascii.eqb_spec x c) as [->|N].
  - apply prefix_correct. simpl. destruct s; reflexivity.
  - destruct (prefix (String c "") (String x s)) eqn:E; [|reflexivity].
    apply prefix_correct in E. simpl in E. congruence.
Qed.

Lemma prefix_key_not_quote x s :
  Ascii.eqb x dquote = false -> prefix text_key (String x s) = false.
Proof.
  intros Hx. destruct (prefix text_key (String x s)) eqn:E; [|reflexivity].
  apply prefix_correct in E. simpl in E. injection E as E _.
  subst x. discriminate.
Qed.

Lemma prefix_append a b : prefix a (a ++ b) = true.
Proof.
  apply prefix_correct. induction a as [|x a IH]; simpl.
  - destruct b; reflexivity.
  - rewrite IH. reflexivity.
Qed.

Lemma index_char_here m : forall c rest,
  lacks c m = true ->
  index 0 (String c EmptyString) (m ++ String c rest) = Some (String.length m).
Proof.
  induction m as [|x m IH]; intros c rest H;
    cbn [append String.length lacks] in *.
  - rewrite index_0_cons, prefix_char, Ascii.eqb_refl. reflexivity.
  - apply andb_true_iff in H. destruct H as [Hx Hm].
    apply negb_true_iff in Hx.
    rewrite index_0_cons, prefix_char, Hx, (IH c rest Hm). reflexivity.
Qed.


Lemma index_char_from a m c rest :
  lacks c m = true ->
  index (String.length a) (String c EmptyString) (a ++ m ++ String c rest)
  = Some (String.length a + String.length m).
Proof.
  intros H. rewrite <- (Nat.add_0_r (String.length a)) at 1.
  rewrite index_after, (index_char_here m c rest H). reflexivity.
Qed.


Lemma index_key_here pre : forall rest,
  lacks dquote pre = true ->
  index 0 text_key (pre ++ text_key ++ rest) = Some (String.length pre).
Proof.
  induction pre as [|x pre IH]; intros rest H.
  - cbn [append]. unfold text_key at 2. cbn [append].
    rewrite index_0_cons.
    change (String dquote
              (String "t" (String "e" (String "x" (String "t"
                 (String dquote rest))))))
      with (text_key ++ rest).
    rewrite prefix_append. reflexivity.
  - cbn [lacks] in H. apply andb_true_iff in H. destruct H as [Hx Hm].
    apply negb_true_iff in Hx.
    cbn [append].
    rewrite index_0_cons, (prefix_key_not_quote _ _ Hx), (IH rest Hm).
    reflexivity.
Qed.


Lemma substring_skip a : forall n m b,
  substring (String.length a + n) m (a ++ b) = substring n m b.
Proof.
  induction a as [|x a IH]; intros n m b; simpl; [reflexivity | apply IH].
Qed.

Lemma substring_prefix b : forall rest,
  substring 0 (String.length b) (b ++ rest) = b.
Proof.
  induction b as [|x b IH]; intros rest; simpl.
  - destruct rest; reflexivity.
  - rewrite IH. reflexivity.
Qed.

Lemma get_substring_1 s : forall q c,
  String.get q s = Some c -> substring q 1 s = String c EmptyString.
Proof.
  induction s as [|x s IH]; intros [|q] c H; simpl in *; try discriminate.
  - injection H as ->. destruct s; reflexivity.
  - apply IH, H.
Qed.

Lemma index_char_first c n s e :
  index n (String c EmptyString) s = Some e ->
  forall q, n <= q -> q < e -> String.get q s <> Some c.
Proof.
  intros H q Hn He G.
  apply (index_correct2 n e (String c EmptyString) s H q Hn He).
  simpl String.length. apply get_substring_1, G.
Qed.

Lemma lacks_substring c s : forall n m,
  (forall q, n <= q -> q < n + m -> String.get q s <> Some c) ->
  lacks c (substring n m s) = true.
Proof.
  induction s as [|x s IH]; intros n m H.
  - destruct n, m; reflexivity.
  - destruct n as [|n].
    + destruct m as [|m]; [reflexivity|].
      cbn [substring lacks]. apply andb_true_iff. split.
      * apply negb_true_iff.
        destruct (Ascii.eqb_spec x c) as [->|]; [|reflexivity].
        exfalso. apply (H 0); [lia | lia | reflexivity].
      * apply IH. intros q Hq1 Hq2. apply (H (S q)); lia.
    + cbn [substring]. apply IH. intros q Hq1 Hq2. apply (H (S q)); lia.
Qed.

(** Once the key, the colon after it and the quote that opens the value
    are found, the result is what stands before the next quote, and
    nothing when there is none. *)
Lemma extract_after_opening_quote pre mid1 mid2 tail :
  lacks dquote pre = true ->
  lacks colon mid1 = true ->
  lacks dquote mid2 = true ->
  extract_text_field
    (pre ++ text_key ++ mid1 ++ String colon (mid2 ++ String dquote tail))
  = match index 0 (String dquote EmptyString) tail with
    | Some e => substring 0 e tail
    | None => EmptyString
    end.
Proof.
  intros Hpre Hmid1 Hmid2.
  set (after_colon := mid2 ++ String dquote tail).
  set (json := pre ++ text_key ++ mid1 ++ String colon after_colon).
  unfold extract_text_field.
  assert (E1 : index 0 text_key json = Some (String.length pre))
    by (apply index_key_here; exact Hpre).
  rewrite E1.
  assert (E2 : index (String.length pre) (String colon "") json
               = Some (String.length pre + String.length (text_key ++ mid1))).
  { unfold json. rewrite <- (append_assoc text_key mid1).
    apply index_char_from. rewrite lacks_append, Hmid1. reflexivity. }
  rewrite E2.
  set (a3 := pre ++ text_key ++ mid1).
  assert (L3 : String.length pre + String.length (text_key ++ mid1)
               = String.length a3)
    by (unfold a3; rewrite (length_append pre); reflexivity).
  assert (J3 : json = a3 ++ String colon mid2 ++ String dquote tail).
  { unfold json, a3, after_colon. rewrite !append_assoc. reflexivity. }
  assert (E3 : index (String.length a3) (String dquote "") json
               = Some (String.length a3 + String.length (String colon mid2))).
  { rewrite J3. apply index_char_from. simpl. rewrite Hmid2. reflexivity. }
  rewrite L3, E3.
  set (a4 := a3 ++ String colon mid2 ++ String dquote "").
  assert (L4 : String.length a3 + String.length (String colon mid2) + 1
               = String.length a4).
  { unfold a4. rewrite !length_append. simpl. lia. }
  assert (J4 : json = a4 ++ tail).
  { rewrite J3. unfold a4. rewrite !append_assoc. reflexivity. }
  rewrite L4, J4.
  rewrite <- (Nat.add_0_r (String.length a4)) at 1.
  rewrite index_after.
  destruct (index 0 (String dquote "") tail) as [e|]; [|reflexivity].
  cbn [option_map].
  replace (String.length a4 + e
           - (String.length a3 + String.length (String colon mid2)) - 1)
    with e by lia.
  rewrite <- (Nat.add_0_r (String.length a4)), substring_skip. reflexivity.
Qed.

(** X11: On a result of the engine's shape (no quote before the key, no colon
    between the key and its colon, no quote between the colon and the
    opening quote) the text returned is what stands between the opening
    quote and the first quote after it, whatever follows, an escaped quote
    ending the text like any other. *)
Theorem extract_text_field_well_formed pre mid1 mid2 body rest :
  lacks dquote pre = true ->
  lacks colon mid1 = true ->
  lacks dquote mid2 = true ->
  lacks dquote body = true ->
  extract_text_field
    (pre ++ text_key ++ mid1 ++
     String colon (mid2 ++ String dquote (body ++ String dquote rest)))
  = body.
Proof.
  intros Hpre Hmid1 Hmid2 Hbody.
  rewrite extract_after_opening_quote by assumption.
  rewrite (index_char_here body dquote rest Hbody).
  apply substring_prefix.
Qed.

(** What is cut out up to the closing quote holds no quote. *)
Lemma value_has_no_quote json p e :
  index (p + 1) (String dquote EmptyString) json = Some e ->
  lacks dquote (substring (p + 1) (e - p - 1) json) = true.
Proof.
  intros E. apply lacks_substring. intros q Hq1 Hq2.
  apply (index_char_first _ _ _ _ E); lia.
Qed.

(** X12: The text returned never contains a double quote. *)
Theorem extract_text_field_has_no_quote json :
  lacks dquote (extract_text_field json) = true.
Proof.
  unfold extract_text_field.
  destruct (index 0 text_key json) as [p1|]; [|reflexivity].
  destruct (index p1 (String colon "") json) as [p2|]; [|reflexivity].
  destruct (index p2 (String dquote "") json) as [p3|]; [|reflexivity].
  destruct (index (p3 + 1) (String dquote "") json) as [e|] eqn:E;
    [|reflexivity].
  apply value_has_no_quote, E.
Qed.

Lemma vosk_text_has_no_quote final_result chunks :
  lacks dquote (vosk_text final_result chunks) = true.
Proof.
  unfold vosk_text, extract_text_field.
  destruct (final_result chunks) as [raw|].
  - destruct (index 0 text_key raw) as [p1|]; [|reflexivity].
    destruct (index p1 (String colon "") raw) as [p2|]; [|reflexivity].
    destruct (index p2 (String dquote "") raw) as [p3|]; [|reflexivity].
    destruct (index (p3 + 1) (String dquote "") raw) as [e|] eqn:E;
      [|reflexivity].
    apply value_has_no_quote, E.
  - reflexivity.
Qed.


End TextField.

(** * The lines printed *)

Section Lines.

Variable dbfs : frame -> spec_float.

Lemma body_line_not_empty recognise rd s :
  Forall (fun e => e <> TranscriptionResult EmptyString)
         (snd (loop_body dbfs recognise rd s)).
Proof.
  destruct s as [h ho a au en t].
  destruct rd as [what|b]; [constructor|].
  split_tests; repeat constructor; try discriminate.
  all: intros E; injection E as ->; discriminate.
Qed.

(** X10: A transcription line never carries the empty text: an empty result is
    printed as the line for no speech recognised. *)
Theorem transcription_line_never_empty recognise ticks s :
  Forall (fun e => e <> TranscriptionResult EmptyString)
         (trace (main_loop dbfs recognise ticks s)).
Proof.
  destruct (main_loop_relates dbfs recognise (fun _ => True)
              (fun _ tr _ =>
                 Forall (fun e => e <> TranscriptionResult EmptyString) tr))
    with (ticks := ticks) (s := s) as [_ H].
  - intros; constructor.
  - intros ? tr1 ? tr2 ? H1 H2. apply Forall_app; auto.
  - intros rd s0 _. split; [exact I | apply body_line_not_empty].
  - exact I.
  - exact H.
Qed.

Lemma body_line_no_quote final_result rd s :
  Forall (fun text => lacks dquote text = true)
         (printed (snd (loop_body dbfs (vosk_text final_result) rd s))).
Proof.
  destruct s as [h ho a au en t].
  destruct rd as [what|b]; [constructor|].
  split_tests; unfold printed; cbn; repeat constructor;
    unfold flush in *;
    repeat match goal with
      | H : (if ?b then _ else _) = (_, _) |- _ => destruct b
      | H : (_, _) = (_, _) |- _ => injection H as <- <-
      end;
    solve [reflexivity | apply vosk_text_has_no_quote].
Qed.

(** X14: With the engine's result read by [extract_text_field], no line printed
    by a session carries a double quote. *)
Theorem printed_text_has_no_quote final_result ticks s :
  Forall (fun text => lacks dquote text = true)
         (printed (trace (main_loop dbfs (vosk_text final_result) ticks s))).
Proof.
  destruct (main_loop_relates dbfs (vosk_text final_result) (fun _ => True)
              (fun _ tr _ =>
                 Forall (fun text => lacks dquote text = true) (printed tr)))
    with (ticks := ticks) (s := s) as [_ H].
  - intros; constructor.
  - intros ? tr1 ? tr2 ? H1 H2. rewrite printed_app. apply Forall_app; auto.
  - intros rd s0 _. split; [exact I | apply body_line_no_quote].
  - exact I.
  - exact H.
Qed.

End Lines.

(** * The capture backends *)

Lemma length_resize n v : 0 <= n -> Z.of_nat (List.length (resize n v)) = n.
Proof.
  intros Hn. unfold resize.
  rewrite length_app, length_firstn, repeat_length. lia.
Qed.

Lemma resize_overwrite data v :
  resize (Z.of_nat (List.length data)) (overwrite data v) = data.
Proof.
  unfold resize, overwrite. rewrite Nat2Z.id.
  rewrite firstn_app, firstn_all, Nat.sub_diag. cbn [firstn].
  rewrite app_nil_r, length_app.
  replace (List.length data - (List.length data + List.length (skipn (List.length data) v)))%nat
    with 0%nat by lia.
  apply app_nil_r.
Qed.

Lemma size_wrap_range z : 0 <= size_wrap z.
Proof. unfold size_wrap. apply Z.mod_pos_bound. lia. Qed.

Section AlsaRead.

Variable snd_strerror : Z -> string.

(** X15: With the device open, the count [read] returns is the size it leaves
    [out] with, so that the loop, which feeds [buffer.size()] samples,
    feeds what was read; without a handle it returns 0 and leaves [out]
    alone. *)
Theorem alsa_read_count_is_buffer_size impl readi stored recover out n out1 :
  alsa_read snd_strerror impl readi stored recover out = Read_returns n out1 ->
  if handle_ impl then n = Z.of_nat (List.length out1)
  else n = 0 /\ out1 = out.
Proof.
  unfold alsa_read. destruct (handle_ impl); cbn [negb].
  - destruct (readi <? 0);
      repeat match goal with
        | |- context [if ?b then _ else _] => destruct b
        end;
      intros E; try discriminate E; injection E as <- <-;
      try reflexivity;
      symmetry; apply length_resize, size_wrap_range.
  - intros E. injection E as <- <-. auto.
Qed.

(** X16: [read] throws exactly when [snd_pcm_readi] failed and
    [snd_pcm_recover] failed too, and the message names [snd_pcm_readi]
    with the text of the code that recovery returned. *)
Theorem alsa_read_raises_iff impl readi stored recover out what :
  alsa_read snd_strerror impl readi stored recover out = Read_raises what <->
  handle_ impl = true /\ readi < 0 /\ recover < 0 /\
  what = alsa_error snd_strerror (int_wrap recover) "snd_pcm_readi".
Proof.
  unfold alsa_read. destruct (handle_ impl); cbn [negb].
  - destruct (Z.ltb_spec readi 0) as [Hr|Hr].
    + destruct (Z.ltb_spec recover 0) as [Hc|Hc].
      * split.
        -- intros E. injection E as <-. auto.
        -- intros (_ & _ & _ & ->). reflexivity.
      * split.
        -- destruct (recover =? 0); discriminate.
        -- intros (_ & _ & H & _). lia.
    + destruct (Z.ltb_spec readi 0) as [Hr1|Hr1]; [lia|].
      split.
      * destruct (readi =? 0); discriminate.
      * intros (_ & H & _). lia.
  - split; [discriminate | intros (H & _); discriminate].
Qed.

(** X17: A read of no frames, and a failed read that recovery repairs, come
    back as an empty read: the loop of [main] passes over it with its
    variables untouched and nothing printed or fed. *)
Theorem recovered_read_is_skipped impl readi stored recover out
        dbfs recognise s :
  handle_ impl = true ->
  readi = 0 \/ (readi < 0 /\ recover = 0) ->
  alsa_read snd_strerror impl readi stored recover out = Read_returns 0 [] /\
  loop_body dbfs recognise
    (as_loop_read (alsa_read snd_strerror impl readi stored recover out)) s
  = (Done tt, s, []).
Proof.
  intros Hh Hcase.
  assert (E : alsa_read snd_strerror impl readi stored recover out
              = Read_returns 0 []).
  { unfold alsa_read. rewrite Hh. cbn [negb].
    destruct Hcase as [->|[Hr ->]]; [reflexivity|].
    apply Z.ltb_lt in Hr. rewrite Hr. reflexivity. }
  rewrite E. split; reflexivity.
Qed.

(** X18: When [snd_pcm_readi] stores [readi] frames, no more than were asked
    for, [read] returns their samples and nothing else, whatever [out]
    held before. *)
Theorem alsa_read_returns_what_was_stored impl readi stored recover out :
  handle_ impl = true ->
  0 < channels (cfg_ impl) < 2 ^ 32 ->
  0 < readi <= frames_per_buffer (cfg_ impl) ->
  frames_per_buffer (cfg_ impl) < 2 ^ 32 ->
  Z.of_nat (List.length stored) = readi * channels (cfg_ impl) ->
  alsa_read snd_strerror impl readi stored recover out =
  Read_returns (readi * channels (cfg_ impl)) stored.
Proof.
  intros Hh Hc Hr Hfpb Hlen.
  unfold alsa_read. rewrite Hh. cbn [negb].
  destruct (Z.ltb_spec readi 0) as [|_]; [lia|].
  destruct (Z.ltb_spec readi 0) as [|_]; [lia|].
  destruct (Z.eqb_spec readi 0) as [|_]; [lia|].
  assert (W : size_wrap (readi * channels (cfg_ impl))
              = readi * channels (cfg_ impl)).
  { unfold size_wrap. apply Z.mod_small. nia. }
  rewrite W, <- Hlen, resize_overwrite. reflexivity.
Qed.

End AlsaRead.

(** *** The CoreAudio queue *)



(** *** Starting and closing the ALSA device *)

Section AlsaStart.

Variable snd_strerror : Z -> string.

Ltac start_cases :=
  unfold alsa_start;
  repeat match goal with
    | |- context [if ?b then _ else _] => destruct b eqn:?
    end.

(** X20: Whatever the library answers and wherever [start] gives up, the
    parameter block is freed exactly once if it was allocated and is not
    used before its allocation or after its release; and once the
    destructor has run the handle, if it was opened, has been closed. *)
Theorem alsa_start_releases_what_it_takes r cfg :
  let started := alsa_start snd_strerror r (mkAlsa cfg false false) in
  let closed := alsa_destroy (snd (fst started)) in
  params_discipline false (snd started) = true /\
  handle_discipline false (snd started ++ snd closed) = true /\
  handle_ (fst closed) = false.
Proof.
  cbv zeta. start_cases; cbn; try discriminate; auto.
Qed.

(** X21: [start] on a device not yet started returns normally exactly when
    every answer of the library is a success; [started_] is set in that
    case only, and the configuration then holds the rate and the period
    size the device settled on. *)
Theorem alsa_start_succeeds_iff r impl :
  started_ impl = false ->
  let started := alsa_start snd_strerror r impl in
  (fst (fst started) = None <-> all_succeed r = true) /\
  started_ (snd (fst started)) = all_succeed r /\
  (all_succeed r = true ->
   handle_ (snd (fst started)) = true /\
   sample_rate (cfg_ (snd (fst started))) = rate_chosen r /\
   frames_per_buffer (cfg_ (snd (fst started)))
   = unsigned_wrap (period_chosen r)).
Proof.
  intros Hs. cbv zeta. unfold all_succeed.
  unfold alsa_start. rewrite Hs.
  repeat match goal with
    | |- context [?x <? 0] =>
        let H := fresh in
        destruct (Z.ltb_spec x 0) as [H|H];
        [apply Z.leb_gt in H | apply Z.leb_le in H]; rewrite H
    end;
  destruct (malloc_ok r);
  cbn [negb andb fst snd started_ handle_ cfg_ sample_rate frames_per_buffer];
  rewrite ?andb_false_r;
  try (repeat split; [discriminate | discriminate | exact Hs | discriminate]);
  try (repeat split; solve [discriminate | reflexivity | assumption]).
  all: destruct (Z.eqb_spec (rate_chosen r) (sample_rate (cfg_ impl)));
    cbn [negb sample_rate cfg_ frames_per_buffer];
    repeat split; try discriminate; try reflexivity; congruence.
Qed.

End AlsaStart.

(** * Sessions whose reads all return *)

Section NoFailure.

Variable dbfs : frame -> spec_float.
Variable recognise : list frame -> string.

Lemma body_of_returned_read rd s :
  read_returned rd -> sink_ok s ->
  sink_ok (snd (fst (loop_body dbfs recognise rd s))) /\
  filter (fun _ => false) (snd (loop_body dbfs recognise rd s)) = [] /\
  (forall e, fst (fst (loop_body dbfs recognise rd s)) = Stop e -> False).
Proof.
  intros Hrd ok. destruct rd as [what|b]; [contradiction|].
  split; [apply body_keeps_sink_ok, ok|].
  split; [apply filter_none|].
  destruct (frame_body_completes dbfs recognise b s ok) as (s1 & out & E).
  rewrite E. discriminate.
Qed.

(** X22: A session in which no read throws is never cut short: when the ticks
    given are used up the loop is still running, or it was left through
    its flag with exit code 0. *)
Theorem session_without_read_failure_never_aborts c ticks :
  Forall (fun t => read_returned (capture_read t)) ticks ->
  let r := main_loop dbfs recognise ticks (initial c) in
  how r = Running \/ how r = Exited 0.
Proof.
  intros Hq r.
  destruct (main_loop_keeps_quiet dbfs recognise
              read_returned sink_ok (fun _ => false) (fun _ => False))
    with (ticks := ticks) (s := initial c) as (_ & _ & Hhow).
  - intros rd s Hrd Hs. apply body_of_returned_read; assumption.
  - exact Hq.
  - apply initial_sink_ok.
  - fold r in Hhow.
    assert (Hcode : forall code, how r = Exited code -> code = 0).
    { clear. unfold r. generalize (initial c).
      induction ticks as [|t rest IH]; intros s code; cbn [main_loop].
      - discriminate.
      - destruct (g_running t).
        + destruct (loop_body dbfs recognise (capture_read t) s)
            as [[[[]|e] s1] out1]; cbn [how]; [apply IH | discriminate].
        + cbn [how]. intros E; injection E as <-. reflexivity. }
    destruct (how r) as [|code|e] eqn:E; auto.
    + right. f_equal. apply Hcode. reflexivity.
    + destruct (Hhow e eq_refl).
Qed.

End NoFailure.

(** * The level meter *)

Lemma digits2_bounds p :
  2 ^ (Zpos (digits2_pos p) - 1) <= Zpos p < 2 ^ Zpos (digits2_pos p).
Proof.
  induction p as [p IH|p IH|]; cbn [digits2_pos].
  - rewrite Pos2Z.inj_succ.
    replace (Z.succ (Zpos (digits2_pos p)) - 1) with (Z.succ (Zpos (digits2_pos p) - 1)) by lia.
    rewrite !Z.pow_succ_r by lia. lia.
  - rewrite Pos2Z.inj_succ.
    replace (Z.succ (Zpos (digits2_pos p)) - 1) with (Z.succ (Zpos (digits2_pos p) - 1)) by lia.
    rewrite !Z.pow_succ_r by lia. lia.
  - cbn. lia.
Qed.

Lemma digits2_unique p d :
  2 ^ (d - 1) <= Zpos p < 2 ^ d -> Zpos (digits2_pos p) = d.
Proof.
  intros [Hlo Hhi]. pose proof (digits2_bounds p) as [Blo Bhi].
  set (c := Zpos (digits2_pos p)) in *.
  assert (0 < c) by (unfold c; lia).
  assert (0 < d).
  { destruct (Z.lt_trichotomy d 0) as [L|[E|G]]; [| |exact G].
    - rewrite (Z.pow_neg_r 2 d) in Hhi by lia. lia.
    - subst d. cbn in Hhi. lia. }
  destruct (Z.lt_trichotomy c d) as [L|[E|G]]; [|exact E|].
  - exfalso. assert (2 ^ c <= 2 ^ (d - 1)) by (apply Z.pow_le_mono_r; lia). lia.
  - exfalso. assert (2 ^ d <= 2 ^ (c - 1)) by (apply Z.pow_le_mono_r; lia). lia.
Qed.

Lemma Zdigits2_pos_bounds v :
  0 < v -> 0 < Zdigits2 v /\ 2 ^ (Zdigits2 v - 1) <= v < 2 ^ Zdigits2 v.
Proof.
  destruct v as [|p|p]; try lia. intros _. cbn [Zdigits2].
  split; [lia | apply digits2_bounds].
Qed.

Lemma Zdigits2_le v w : 0 < v -> v <= w -> Zdigits2 v <= Zdigits2 w.
Proof.
  intros Hv Hw.
  destruct (Zdigits2_pos_bounds v Hv) as (Dv & Lv & Uv).
  destruct (Zdigits2_pos_bounds w) as (Dw & Lw & Uw); [lia|].
  destruct (Z_le_gt_dec (Zdigits2 v) (Zdigits2 w)) as [|G]; [assumption|].
  exfalso.
  assert (2 ^ Zdigits2 w <= 2 ^ (Zdigits2 v - 1)) by (apply Z.pow_le_mono_r; lia).
  lia.
Qed.

Lemma Zdigits2_below v n : 0 < v < 2 ^ n -> Zdigits2 v <= n.
Proof.
  intros [Hv Hn].
  destruct (Zdigits2_pos_bounds v Hv) as (Dv & Lv & Uv).
  destruct (Z_le_gt_dec (Zdigits2 v) n) as [|G]; [assumption|].
  exfalso.
  assert (2 ^ n <= 2 ^ (Zdigits2 v - 1)) by (apply Z.pow_le_mono_r; lia).
  lia.
Qed.

Lemma Zdigits2_shift v k M :
  0 < v -> 0 <= k -> Zpos M = v * 2 ^ k ->
  Zpos (digits2_pos M) = Zdigits2 v + k.
Proof.
  intros Hv Hk HM.
  destruct (Zdigits2_pos_bounds v Hv) as (Dv & Lv & Uv).
  apply digits2_unique. rewrite HM.
  replace (Zdigits2 v + k - 1) with (Zdigits2 v - 1 + k) by lia.
  rewrite !Z.pow_add_r by lia.
  assert (0 < 2 ^ k) by (apply Z.pow_pos_nonneg; lia).
  nia.
Qed.

Lemma pos_iter_xO p d : Zpos (Pos.iter xO p d) = Zpos p * 2 ^ Zpos d.
Proof.
  revert p. induction d as [|d IH] using Pos.peano_ind; intros p.
  - cbn. lia.
  - rewrite Pos.iter_succ, Pos2Z.inj_succ, Z.pow_succ_r by lia.
    rewrite Pos2Z.inj_xO, IH. lia.
Qed.

Lemma shr_1_even m :
  0 < m ->
  shr_1 (Build_shr_record (2 * m) false false) = Build_shr_record m false false.
Proof. destruct m as [|q|q]; try lia. intros _. reflexivity. Qed.

Lemma pow2_xO p : 2 ^ Zpos p~0 = 2 ^ Zpos p * 2 ^ Zpos p.
Proof.
  rewrite (Pos2Z.inj_xO p). replace (2 * Zpos p) with (Zpos p + Zpos p) by lia.
  apply Z.pow_add_r; lia.
Qed.

Lemma pow2_xI p : 2 ^ Zpos p~1 = 2 * (2 ^ Zpos p * 2 ^ Zpos p).
Proof.
  rewrite (Pos2Z.inj_xI p).
  replace (2 * Zpos p + 1) with (Z.succ (Zpos p + Zpos p)) by lia.
  rewrite Z.pow_succ_r, Z.pow_add_r by lia. reflexivity.
Qed.

Lemma iter_shr_exact p : forall m,
  0 < m ->
  iter_pos shr_1 p (Build_shr_record (m * 2 ^ Zpos p) false false)
  = Build_shr_record m false false.
Proof.
  induction p as [p IH|p IH|]; intros m Hm; cbn [iter_pos].
  - assert (P : 0 < 2 ^ Zpos p) by (apply Z.pow_pos_nonneg; lia).
    rewrite pow2_xI.
    replace (m * (2 * (2 ^ Zpos p * 2 ^ Zpos p)))
      with (2 * ((m * 2 ^ Zpos p) * 2 ^ Zpos p)) by ring.
    rewrite shr_1_even by nia. rewrite IH by nia. apply IH, Hm.
  - assert (P : 0 < 2 ^ Zpos p) by (apply Z.pow_pos_nonneg; lia).
    rewrite pow2_xO.
    replace (m * (2 ^ Zpos p * 2 ^ Zpos p))
      with ((m * 2 ^ Zpos p) * 2 ^ Zpos p) by ring.
    rewrite IH by nia. apply IH, Hm.
  - change (2 ^ 1) with 2. rewrite Z.mul_comm. apply shr_1_even, Hm.
Qed.

Lemma fexp_small d : 1 <= d -> fexp 53 1024 d = d - 53.
Proof. intros H. unfold fexp, emin. lia. Qed.

Lemma shr_fexp_exact M E v :
  0 < v < 2 ^ 53 -> E <= Zdigits2 v - 53 -> Zpos M = v * 2 ^ (- E) ->
  shr_fexp 53 1024 (Zpos M) E loc_Exact
  = (Build_shr_record (v * 2 ^ (53 - Zdigits2 v)) false false, Zdigits2 v - 53).
Proof.
  intros Hv HE HM.
  destruct (Zdigits2_pos_bounds v (proj1 Hv)) as (Dv & Lv & Uv).
  pose proof (Zdigits2_below v 53 Hv) as D53.
  unfold shr_fexp. cbn [Zdigits2 shr_record_of_loc].
  rewrite (Zdigits2_shift v (- E) M) by lia.
  replace (Zdigits2 v + - E + E) with (Zdigits2 v) by lia.
  rewrite fexp_small by lia.
  unfold shr.
  destruct (Zdigits2 v - 53 - E) as [|n|n] eqn:En; try lia.
  - assert (EE : E = Zdigits2 v - 53) by lia.
    rewrite HM, EE.
    replace (- (Zdigits2 v - 53)) with (53 - Zdigits2 v) by lia.
    reflexivity.
  - rewrite HM.
    replace (v * 2 ^ (- E)) with ((v * 2 ^ (53 - Zdigits2 v)) * 2 ^ Zpos n).
    + rewrite iter_shr_exact.
      * f_equal. lia.
      * assert (0 < 2 ^ (53 - Zdigits2 v)) by (apply Z.pow_pos_nonneg; lia). nia.
    + rewrite <- Z.mul_assoc, <- Z.pow_add_r by lia. do 2 f_equal. lia.
Qed.

Lemma round_aux_exact s M E v :
  0 < v < 2 ^ 53 -> E <= Zdigits2 v - 53 -> Zpos M = v * 2 ^ (- E) ->
  binary_round_aux 53 1024 s (Zpos M) E loc_Exact = canon s v.
Proof.
  intros Hv HE HM.
  destruct (Zdigits2_pos_bounds v (proj1 Hv)) as (Dv & Lv & Uv).
  pose proof (Zdigits2_below v 53 Hv) as D53.
  assert (P : 0 < 2 ^ (53 - Zdigits2 v)) by (apply Z.pow_pos_nonneg; lia).
  unfold binary_round_aux.
  rewrite (shr_fexp_exact M E v Hv HE HM).
  cbn [shr_m loc_of_shr_record round_nearest_even].
  destruct (v * 2 ^ (53 - Zdigits2 v)) as [|m'|m'] eqn:Em; try nia.
  rewrite (shr_fexp_exact m' (Zdigits2 v - 53) v Hv); [| lia |].
  - rewrite Em. cbn [shr_m].
    destruct (Z.leb_spec (Zdigits2 v - 53) (1024 - 53)); [|lia].
    unfold canon. rewrite Em. reflexivity.
  - rewrite <- Em. do 2 f_equal. lia.
Qed.

Lemma round_exact s M E v :
  0 < v < 2 ^ 53 -> E <= Zdigits2 v - 53 -> Zpos M = v * 2 ^ (- E) ->
  binary_round 53 1024 s M E = canon s v.
Proof.
  intros Hv HE HM.
  destruct (Zdigits2_pos_bounds v (proj1 Hv)) as (Dv & Lv & Uv).
  pose proof (Zdigits2_below v 53 Hv) as D53.
  unfold binary_round.
  rewrite (Zdigits2_shift v (- E) M) by lia.
  replace (Zdigits2 v + - E + E) with (Zdigits2 v) by lia.
  rewrite fexp_small by lia.
  unfold shl_align.
  destruct (Zdigits2 v - 53 - E) as [|n|n] eqn:En; try lia;
    apply round_aux_exact; assumption.
Qed.

Lemma round_of_positive s p :
  Zpos p < 2 ^ 53 -> binary_round 53 1024 s p 0 = canon s (Zpos p).
Proof.
  intros Hp.
  assert (Hv : 0 < Zpos p < 2 ^ 53) by lia.
  destruct (Zdigits2_pos_bounds (Zpos p) (proj1 Hv)) as (Dv & Lv & Uv).
  pose proof (Zdigits2_below (Zpos p) 53 Hv) as D53.
  unfold binary_round.
  rewrite Z.add_0_r. change (Zpos (digits2_pos p)) with (Zdigits2 (Zpos p)).
  rewrite fexp_small by lia.
  unfold shl_align.
  destruct (Zdigits2 (Zpos p) - 53 - 0) as [|n|n] eqn:En; try lia.
  - apply round_aux_exact; [assumption | lia |].
    cbn. lia.
  - apply round_aux_exact; [assumption | lia |].
    rewrite pos_iter_xO. f_equal. f_equal. lia.
Qed.


Lemma double_of_pos p :
  Zpos p < 2 ^ 53 -> double_of_int (Zpos p) = canon false (Zpos p).
Proof. apply round_of_positive. Qed.

Lemma double_of_neg p :
  Zpos p < 2 ^ 53 -> double_of_int (Zneg p) = canon true (Zpos p).
Proof. apply round_of_positive. Qed.

Lemma canon_mantissa v :
  0 < v < 2 ^ 53 ->
  Zpos (Z.to_pos (v * 2 ^ (53 - Zdigits2 v))) = v * 2 ^ (53 - Zdigits2 v).
Proof.
  intros Hv. pose proof (Zdigits2_below v 53 Hv).
  assert (0 < 2 ^ (53 - Zdigits2 v)) by (apply Z.pow_pos_nonneg; lia).
  apply Z2Pos.id. nia.
Qed.

Lemma square_canon s a :
  0 < a -> a * a < 2 ^ 53 ->
  SFmul 53 1024 (canon s a) (canon s a) = canon false (a * a).
Proof.
  intros Ha Hsq.
  assert (Hv : 0 < a < 2 ^ 53) by nia.
  assert (Hvv : 0 < a * a < 2 ^ 53) by nia.
  destruct (Zdigits2_pos_bounds a Ha) as (Da & La & Ua).
  pose proof (Zdigits2_below a 53 Hv) as D53.
  assert (Dle : Zdigits2 a <= Zdigits2 (a * a)) by (apply Zdigits2_le; nia).
  unfold canon at 1 2. cbn [SFmul].
  replace (xorb s s) with false by (destruct s; reflexivity).
  apply round_aux_exact; [assumption | lia |].
  rewrite Pos2Z.inj_mul, canon_mantissa by assumption.
  replace (- (Zdigits2 a - 53 + (Zdigits2 a - 53)))
    with ((53 - Zdigits2 a) + (53 - Zdigits2 a)) by lia.
  rewrite Z.pow_add_r by lia. ring.
Qed.

Lemma square_exact z :
  z * z < 2 ^ 53 ->
  SFmul 53 1024 (double_of_int z) (double_of_int z) = double_of_int (z * z).
Proof.
  intros Hsq. destruct z as [|p|p].
  - reflexivity.
  - assert (Zpos p < 2 ^ 53) by nia.
    assert (Zpos (p * p) < 2 ^ 53) by (rewrite Pos2Z.inj_mul; exact Hsq).
    change (Zpos p * Zpos p) with (Zpos (p * p)).
    rewrite !double_of_pos by assumption.
    rewrite Pos2Z.inj_mul. apply square_canon; lia.
  - assert (Zpos p < 2 ^ 53) by nia.
    assert (Zpos (p * p) < 2 ^ 53) by (rewrite Pos2Z.inj_mul; exact Hsq).
    change (Zneg p * Zneg p) with (Zpos (p * p)).
    rewrite double_of_neg, double_of_pos by assumption.
    rewrite Pos2Z.inj_mul. apply square_canon; lia.
Qed.

Lemma shl_align_value m e ez :
  ez <= e -> Zpos (fst (shl_align m e ez)) = Zpos m * 2 ^ (e - ez).
Proof.
  intros H. unfold shl_align.
  destruct (ez - e) as [|d|d] eqn:E; try lia; cbn [fst].
  - replace (e - ez) with 0 by lia. cbn. lia.
  - rewrite pos_iter_xO. do 2 f_equal. lia.
Qed.

Lemma add_canon a b :
  0 < a -> 0 < b -> a + b < 2 ^ 53 ->
  SFadd 53 1024 (canon false a) (canon false b) = canon false (a + b).
Proof.
  intros Ha Hb Hab.
  assert (Hva : 0 < a < 2 ^ 53) by lia.
  assert (Hvb : 0 < b < 2 ^ 53) by lia.
  assert (Hv : 0 < a + b < 2 ^ 53) by lia.
  pose proof (Zdigits2_below a 53 Hva) as Da53.
  pose proof (Zdigits2_below b 53 Hvb) as Db53.
  assert (Dla : Zdigits2 a <= Zdigits2 (a + b)) by (apply Zdigits2_le; lia).
  assert (Dlb : Zdigits2 b <= Zdigits2 (a + b)) by (apply Zdigits2_le; lia).
  unfold canon at 1 2. cbn [SFadd cond_Zopp].
  set (ea := Zdigits2 a - 53). set (eb := Zdigits2 b - 53).
  set (ez := Z.min ea eb).
  assert (Hza : ez <= ea) by (unfold ez; lia).
  assert (Hzb : ez <= eb) by (unfold ez; lia).
  rewrite !shl_align_value, !canon_mantissa by assumption.
  assert (Ea : a * 2 ^ (53 - Zdigits2 a) * 2 ^ (ea - ez) = a * 2 ^ (- ez)).
  { rewrite <- Z.mul_assoc, <- Z.pow_add_r by (unfold ea in *; lia).
    do 2 f_equal. unfold ea. lia. }
  assert (Eb : b * 2 ^ (53 - Zdigits2 b) * 2 ^ (eb - ez) = b * 2 ^ (- ez)).
  { rewrite <- Z.mul_assoc, <- Z.pow_add_r by (unfold eb in *; lia).
    do 2 f_equal. unfold eb. lia. }
  rewrite Ea, Eb.
  assert (P : 0 < 2 ^ (- ez)) by (apply Z.pow_pos_nonneg; unfold ea in *; lia).
  destruct (a * 2 ^ (- ez) + b * 2 ^ (- ez)) as [|M|M] eqn:EM; try nia.
  cbn [binary_normalize].
  apply round_exact; [assumption | unfold ea in *; lia |].
  rewrite <- EM. ring.
Qed.

Lemma add_exact a b :
  0 <= a -> 0 <= b -> a + b < 2 ^ 53 ->
  SFadd 53 1024 (double_of_int a) (double_of_int b) = double_of_int (a + b).
Proof.
  intros Ha Hb Hab.
  destruct a as [|p|p]; [|destruct b as [|q|q]|]; try lia.
  - destruct b as [|q|q]; try lia; [reflexivity|].
    cbn [Z.add]. rewrite double_of_pos by lia. reflexivity.
  - rewrite Z.add_0_r, double_of_pos by lia. reflexivity.
  - change (Zpos p + Zpos q) with (Zpos (p + q)).
    rewrite !double_of_pos by (rewrite ?Pos2Z.inj_add; lia).
    rewrite Pos2Z.inj_add. apply add_canon; lia.
Qed.

Lemma sum_of_squares_nonneg x : 0 <= sum_of_squares x.
Proof.
  induction x as [|s x IH]; cbn [sum_of_squares]; nia.
Qed.

Lemma accumulate_from x : forall a,
  0 <= a -> a + sum_of_squares x < 2 ^ 53 ->
  fold_left (fun acc sample =>
               SFadd 53 1024 acc
                 (SFmul 53 1024 (double_of_int sample) (double_of_int sample)))
            x (double_of_int a)
  = double_of_int (a + sum_of_squares x).
Proof.
  induction x as [|s x IH]; intros a Ha Hsum;
    cbn [fold_left sum_of_squares] in *.
  - rewrite Z.add_0_r. reflexivity.
  - pose proof (sum_of_squares_nonneg x).
    assert (0 <= s * s) by nia.
    rewrite square_exact by lia.
    rewrite add_exact by lia.
    rewrite IH by lia. f_equal. ring.
Qed.

Lemma accumulate_exact x :
  sum_of_squares x < 2 ^ 53 -> accumulate x = double_of_int (sum_of_squares x).
Proof.
  intros H. unfold accumulate.
  change (S754_zero false) with (double_of_int 0).
  rewrite accumulate_from by lia. reflexivity.
Qed.

Lemma sum_of_squares_bound x :
  Forall int16 x -> sum_of_squares x <= Z.of_nat (List.length x) * 2 ^ 30.
Proof.
  induction 1 as [|s x Hs Hx IH]; cbn [sum_of_squares List.length].
  - cbn. lia.
  - rewrite Nat2Z.inj_succ. unfold int16 in Hs.
    change (2 ^ 30) with 1073741824 in *.
    assert (s * s <= 1073741824) by nia. lia.
Qed.

Section LevelMeterProperties.

Variable log10 : spec_float -> spec_float.

(** C5: for the empty sequence [rms] is [0.0]; for every non-empty
    sequence it is the square root of the mean of the squares, the squares
    accumulated in [double], divided by the count, the root taken in
    [double] and the result cast to [float]; for [int16_t] samples and
    fewer than 2^23 of them the accumulation loses nothing, so that [rms]
    is "sqrt(mean(sample^2))" on the exact sum; and for every sequence,
    the empty one included, [dbfs] is 20 * log10((rms + 1e-9) / 32768.0),
    computed in [float]. *)
Theorem level_meter_computes_rms_and_dbfs x :
  rms [] = S754_zero false /\
  (x <> [] ->
   rms x =
   float_of_double
     (SFsqrt 53 1024
        (SFdiv 53 1024 (accumulate x)
               (double_of_int (Z.of_nat (List.length x)))))) /\
  (Forall int16 x -> Z.of_nat (List.length x) < 2 ^ 23 ->
   accumulate x = double_of_int (sum_of_squares x) /\
   (x <> [] -> rms x = rms_formula x)) /\
  dbfs log10 x = dbfs_formula log10 (rms x).
Proof.
  split; [reflexivity|].
  split; [destruct x; [congruence | reflexivity]|].
  split; [|reflexivity].
  intros H16 Hlen.
  assert (E : accumulate x = double_of_int (sum_of_squares x)).
  { apply accumulate_exact.
    pose proof (sum_of_squares_bound x H16).
    change (2 ^ 53) with 9007199254740992.
    change (2 ^ 30) with 1073741824 in *.
    change (2 ^ 23) with 8388608 in *. lia. }
  split; [exact E|].
  intros Hne. unfold rms_formula. rewrite <- E.
  destruct x; [congruence | reflexivity].
Qed.

End LevelMeterProperties.

(** * The further properties at work on sample data *)

Lemma idle_recognizer_sample :
  pending (vars (main_loop sample_dbfs sample_text
                   (frames (repeat full_scale 10 ++ repeat silence 19))
                   (initial Ctor_ok))) = [].
Proof.
  apply (idle_recognizer_is_empty sample_dbfs sample_text
           (frames (repeat full_scale 10 ++ repeat silence 19))).
  vm_compute; reflexivity.
Defined.

Lemma detection_every_tenth_sample :
  let r := main_loop sample_dbfs sample_text
             (frames (repeat full_scale 25)) (initial Ctor_ok) in
  how r = Running /\
  hot (vars r) = (0 + 25) mod trigger_frames /\
  Z.of_nat (List.length (announced (trace r))) = (0 + 25) / trigger_frames.
Proof.
  apply (detection_every_tenth_loud_frame sample_dbfs sample_text
           (repeat full_scale 25) (initial Ctor_ok)).
  - discriminate.
  - vm_compute; split; discriminate.
  - apply Forall_repeat_same, full_scale_loud.
Defined.

Lemma loud_frames_fed_sample :
  let r := main_loop sample_dbfs sample_text
             (frames (repeat full_scale 3)) (initial Ctor_ok) in
  how r = Running /\
  fed (trace r) = repeat full_scale 3 /\
  filter is_flush (trace r) = [] /\
  (repeat full_scale 3 <> [] -> segment_active (vars r) = true).
Proof.
  apply (loud_frames_fed_uncut sample_dbfs sample_text
           (repeat full_scale 3) (initial Ctor_ok)).
  - discriminate.
  - reflexivity.
  - apply Forall_repeat_same, full_scale_loud.
Defined.

Lemma one_loud_frame_sample :
  let r := main_loop sample_dbfs sample_text
             (frames [full_scale; silence]) (initial Ctor_ok) in
  how r = Running /\
  segment_active (vars r) = false /\
  pending (vars r) = [] /\
  trace r = [Feed full_scale; Flush; TranscriptionResult "hello"].
Proof.
  apply (one_loud_frame_is_transcribed sample_dbfs sample_text
           full_scale silence (initial Ctor_ok)).
  - exact full_scale_loud.
  - exact silence_quiet.
  - reflexivity.
  - reflexivity.
  - reflexivity.
  - vm_compute; split; [discriminate | reflexivity].
Defined.

Lemma hold_counts_down_sample :
  let r := main_loop sample_dbfs sample_text (frames (repeat silence 25)) armed in
  how r = Running /\ hold (vars r) = Z.max 0 (19 - 25).
Proof.
  apply (hold_counts_down_to_zero sample_dbfs sample_text
           (repeat silence 25) armed).
  - discriminate.
  - vm_compute; split; discriminate.
  - apply Forall_repeat_same, silence_quiet.
Defined.

Lemma extract_text_field_sample :
  extract_text_field
    (result_open ++ text_key ++ result_gap ++
     String colon (result_gap ++ String dquote
                     (heard ++ String dquote result_close)))%string
  = heard.
Proof.
  apply (extract_text_field_well_formed
           result_open result_gap result_gap heard result_close);
    reflexivity.
Defined.


Lemma alsa_read_count_sample :
  512 = Z.of_nat (List.length full_scale).
Proof.
  apply (alsa_read_count_is_buffer_size sample_strerror open_device
           512 full_scale 0 [] 512 full_scale).
  vm_compute; reflexivity.
Defined.

Lemma recovered_read_sample :
  alsa_read sample_strerror open_device (-32) [] 0 silence
  = Read_returns 0 [] /\
  loop_body sample_dbfs sample_text
    (as_loop_read (alsa_read sample_strerror open_device (-32) [] 0 silence))
    armed
  = (Done tt, armed, []).
Proof.
  apply (recovered_read_is_skipped sample_strerror open_device
           (-32) [] 0 silence sample_dbfs sample_text armed).
  - reflexivity.
  - right. split; [reflexivity | reflexivity].
Defined.

Lemma alsa_read_stored_sample :
  alsa_read sample_strerror open_device 512 full_scale 0 silence
  = Read_returns (512 * channels (cfg_ open_device)) full_scale.
Proof.
  apply (alsa_read_returns_what_was_stored sample_strerror open_device
           512 full_scale 0 silence).
  - reflexivity.
  - vm_compute; split; reflexivity.
  - vm_compute; split; [reflexivity | discriminate].
  - reflexivity.
  - reflexivity.
Defined.

Lemma alsa_start_sample :
  let started := alsa_start sample_strerror willing fresh_device in
  (fst (fst started) = None <-> all_succeed willing = true) /\
  started_ (snd (fst started)) = all_succeed willing /\
  (all_succeed willing = true ->
   handle_ (snd (fst started)) = true /\
   sample_rate (cfg_ (snd (fst started))) = rate_chosen willing /\
   frames_per_buffer (cfg_ (snd (fst started)))
   = unsigned_wrap (period_chosen willing)).
Proof.
  apply (alsa_start_succeeds_iff sample_strerror willing fresh_device).
  reflexivity.
Defined.

Lemma session_without_failure_sample :
  let r := main_loop sample_dbfs sample_text
             (frames [full_scale; silence] ++ [mkTick false (Samples [])])
             (initial Ctor_ok) in
  how r = Running \/ how r = Exited 0.
Proof.
  apply (session_without_read_failure_never_aborts sample_dbfs sample_text
           Ctor_ok
           (frames [full_scale; silence] ++ [mkTick false (Samples [])])).
  cbn [frames map app]. repeat constructor.
Defined.

(** * The level meter and a failing read on sample data *)

Lemma level_meter_sample :
  rms full_scale = ref_f /\
  accumulate full_scale = double_of_int (sum_of_squares full_scale) /\
  rms full_scale = rms_formula full_scale /\
  dbfs sample_log10 full_scale = S754_zero false /\
  rms [] = S754_zero false.
Proof.
  destruct (level_meter_computes_rms_and_dbfs sample_log10 full_scale)
    as (Hnil & _ & Hexact & _).
  destruct Hexact as [Hacc Hrms].
  - apply Forall_repeat_same. unfold int16. lia.
  - vm_compute. reflexivity.
  - split; [vm_compute; reflexivity|].
    split; [exact Hacc|].
    split; [apply Hrms; discriminate|].
    split; [vm_compute; reflexivity | exact Hnil].
Defined.

(** C4: the code on a read that fails for good.  [snd_pcm_readi] returns
    -32 and [snd_pcm_recover] returns -32 as well: [read] throws, nothing
    in the loop of [main] catches it, and the session is over with the
    exception; the loud frame that was to follow is never read, and
    nothing is logged by the loop. *)
Theorem read_failure_aborts_session :
  let rd := alsa_read sample_strerror open_device (-32) [] (-32) [] in
  let ticks := [mkTick true (Samples full_scale);
                mkTick true (as_loop_read rd);
                mkTick true (Samples full_scale)] in
  let r := main_loop sample_dbfs sample_text ticks (initial Ctor_ok) in
  rd = Read_raises "snd_pcm_readi: Broken pipe" /\
  how r = Aborted (Uncaught "snd_pcm_readi: Broken pipe") /\
  hot (vars r) = 1 /\
  trace r = [Feed full_scale].
Proof. repeat split; vm_compute; reflexivity. Qed.
